(** * OTBN constant-time checker: [hw/ip/otbn/util/check_const_time.py]

    A shallow embedding of the command-line driver of the OTBN
    constant-time checker, and the properties of its argument validation
    ([parse_required_constants]) and of its verdict stage (the filter on
    the control-dependency map and the exit status of [main]).

    Conventions of the embedding.
    - A Python [str] is a list of Unicode code points ([list N]).
    - A Python [dict] with [str] keys is a [gmap (list N) V]; the driver
      never depends on the iteration order of a dictionary.
    - A Python exception is a value of type [exn]; a computation that can
      raise returns a [result].
    - [int(str)] follows CPython's conversion, with its default limit of
      4300 digits on the strings it converts.
    - The parts of the tool that live in other modules ([shared.decode],
      [shared.control_flow], [shared.information_flow_analysis],
      [shared.check]) and the Unicode character database are parameters.
    - A run starts from the arguments [parser.parse_args()] has returned;
      the parser of the command line is [argparse]'s. *)

From Stdlib Require Import ZArith NArith Lia.
From stdpp Require Import gmap strings list fin_maps pretty.

Local Open Scope Z_scope.

(** ** Python strings *)

Abbreviation pystr := (list N).

(** A string literal of the development, as a Python [str]. *)
Definition py (s : string) : pystr :=
  Ascii.N_of_ascii <$> String.list_ascii_of_string s.

(** [sep.join(parts)] *)
Fixpoint join (sep : pystr) (parts : list pystr) : pystr :=
  match parts with
  | [] => []
  | [p] => p
  | p :: ps => p ++ sep ++ join sep ps
  end.

(** [s.split(sep)] for a separator of one character: the pieces between
    the occurrences of [sep], one more than there are occurrences. *)
Fixpoint split (sep : N) (s : pystr) : list pystr :=
  match s with
  | [] => [[]]
  | c :: s' =>
      if (c =? sep)%N then [] :: split sep s'
      else match split sep s' with
           | w :: ws => (c :: w) :: ws
           | [] => [[c]]
           end
  end.

Definition colon : N := 58.

(** ** Characters

    [str.isnumeric], and [int] on a [str], consult the Unicode character
    database.  The classes below are the ones these two operations tell
    apart; they exclude one another in Unicode. *)

Inductive decimal_digit := D0 | D1 | D2 | D3 | D4 | D5 | D6 | D7 | D8 | D9.

Definition digit_value (d : decimal_digit) : Z :=
  match d with
  | D0 => 0 | D1 => 1 | D2 => 2 | D3 => 3 | D4 => 4
  | D5 => 5 | D6 => 6 | D7 => 7 | D8 => 8 | D9 => 9
  end.

Inductive uclass :=
| UDecimal (d : decimal_digit)  (* Numeric_Type=Decimal, with its value *)
| UNumeric                      (* Numeric_Type=Digit or Numeric *)
| USpace                        (* White_Space, or bidirectional WS, B or S *)
| UOther.

(** The ASCII range is fixed: the digits, the white space of
    [str.isspace], everything else. *)
Definition ascii_class (c : N) : uclass :=
  match c with
  | 48 => UDecimal D0 | 49 => UDecimal D1 | 50 => UDecimal D2
  | 51 => UDecimal D3 | 52 => UDecimal D4 | 53 => UDecimal D5
  | 54 => UDecimal D6 | 55 => UDecimal D7 | 56 => UDecimal D8
  | 57 => UDecimal D9
  | 9 | 10 | 11 | 12 | 13 | 28 | 29 | 30 | 31 | 32 => USpace
  | _ => UOther
  end%N.

(** The classes of Latin-1 (U+0080..U+00FF), and nothing beyond: an
    instance of the database for the examples. *)
Definition latin1_class (c : N) : uclass :=
  match c with
  | 133 | 160 => USpace
  | 178 | 179 | 185 | 188 | 189 | 190 => UNumeric
  | _ => UOther
  end%N.

(** ** Exceptions *)

Inductive value_error :=
| CouldNotParse (token : pystr)
| NotValidGPR (token reg : pystr)
| NotNumeric (token value : pystr)
| OutOfRange (token : pystr) (value : Z)
| InvalidLiteral (value : pystr)          (* raised by [int] itself *)
| ConstantsWithoutSubroutine.

Inductive exn :=
| ValueError (e : value_error)
| OtherException (name : pystr).

Inductive result (A : Type) :=
| Ok (a : A)
| Raise (e : exn).
Arguments Ok {A} a.
Arguments Raise {A} e.

#[global] Instance result_ret : MRet result := λ A a, Ok a.

#[global] Instance result_bind : MBind result := λ A B k r,
  match r with
  | Ok a => k a
  | Raise e => Raise e
  end.

Definition is_value_error {A} (r : result A) : Prop :=
  ∃ e, r = Raise (ValueError e).

(** [GPR_MAX = (1 << 32) - 1] *)
Definition GPR_MAX : Z := Z.shiftl 1 32 - 1.

(** [is_gpr_name]: [name in [f'x{i}' for i in range(32)]] *)
Definition gpr_names : list pystr :=
  (λ i : nat, py ("x" +:+ pretty i)) <$> seq 0 32.

Definition is_gpr_name (name : pystr) : bool :=
  bool_decide (name ∈ gpr_names).

Section Parse.

(** The class of the code points from U+0080 on. *)
Variable unicode_class : N → uclass.

Definition char_class (c : N) : uclass :=
  if (c <? 128)%N then ascii_class c else unicode_class c.

Definition is_numeric_char (c : N) : bool :=
  match char_class c with
  | UDecimal _ | UNumeric => true
  | _ => false
  end.

(** [s.isnumeric()]: at least one character, and all of them numeric. *)
Definition isnumeric (s : pystr) : bool :=
  match s with
  | [] => false
  | _ => forallb is_numeric_char s
  end.

(** *** [int(s)]

    CPython first rewrites a string that is not plain ASCII: a character
    below U+007F is kept, white space becomes a blank, a decimal digit
    becomes its ASCII digit, and the first character that is none of
    these becomes ['?'] and ends the string. *)
Definition ascii_of_digit (d : decimal_digit) : N :=
  (48 + Z.to_N (digit_value d))%N.

Fixpoint transform_chars (s : pystr) : pystr :=
  match s with
  | [] => []
  | c :: s' =>
      if (c <? 127)%N then c :: transform_chars s'
      else match char_class c with
           | USpace => 32%N :: transform_chars s'
           | UDecimal d => ascii_of_digit d :: transform_chars s'
           | _ => [63%N]
           end
  end.

Definition transform_decimal_and_space (s : pystr) : pystr :=
  if forallb (λ c, c <? 128)%N s then s else transform_chars s.

(** The C locale's [isspace], used on the rewritten string. *)
Definition is_c_space (c : N) : bool :=
  ((9 <=? c) && (c <=? 13) || (c =? 32))%N.

Fixpoint skip_space (s : pystr) : pystr :=
  match s with
  | c :: s' => if is_c_space c then skip_space s' else s
  | [] => []
  end.

Definition ascii_digit (c : N) : option Z :=
  if ((48 <=? c) && (c <=? 57))%N then Some (Z.of_N c - 48) else None.

(** The digits, with single underscores between them.  [prev_us]: the
    previous character was an underscore; [digits]: the number of digits
    read so far.  The result is the value read, the number of digits and
    what follows the digits. *)
Fixpoint scan_digits (s : pystr) (prev_us : bool) (digits : N) (acc : Z)
  : option (Z * N * pystr) :=
  match s with
  | c :: s' =>
      if (c =? 95)%N then
        if prev_us then None else scan_digits s' true digits acc
      else match ascii_digit c with
           | Some d => scan_digits s' false (N.succ digits) (10 * acc + d)
           | None => if prev_us then None else Some (acc, digits, s)
           end
  | [] => if prev_us then None else Some (acc, digits, s)
  end.

(** The default of [sys.get_int_max_str_digits()]: [int] raises
    [ValueError] on a string with more digits. *)
Definition int_max_str_digits : N := 4300.

Definition leading_underscore (s : pystr) : bool :=
  match s with
  | c :: _ => (c =? 95)%N
  | [] => false
  end.

(** Optional blanks, an optional sign, the digits, optional blanks, and
    nothing else; at least one digit, and no more digits than the limit. *)
Definition long_from_string (s : pystr) : option Z :=
  let s1 := skip_space s in
  let '(sign, s2) :=
    match s1 with
    | c :: r =>
        if (c =? 43)%N then (1, r)
        else if (c =? 45)%N then (-1, r)
        else (1, s1)
    | [] => (1, s1)
    end in
  if leading_underscore s2 then None
  else match scan_digits s2 false 0 0 with
       | Some (v, digits, rest) =>
           if (digits =? 0)%N then None
           else if (int_max_str_digits <? digits)%N then None
           else match skip_space rest with
                | [] => Some (sign * v)
                | _ => None
                end
       | None => None
       end.

(** [int(s)]: the integer, or [None] where Python raises [ValueError]
    (invalid literal for int() with base 10, or more digits than the limit
    for integer string conversion). *)
Definition py_int (s : pystr) : option Z :=
  long_from_string (transform_decimal_and_space s).

(** *** Decimal strings

    [s.isdecimal()], and the number a decimal string denotes: what the
    properties below say of a "string of decimal digits" and of "its
    integer value". *)
Definition char_digit (c : N) : option Z :=
  match char_class c with
  | UDecimal d => Some (digit_value d)
  | _ => None
  end.

Definition is_decimal_char (c : N) : bool :=
  match char_class c with
  | UDecimal _ => true
  | _ => false
  end.

Definition isdecimal (s : pystr) : bool :=
  match s with
  | [] => false
  | _ => forallb is_decimal_char s
  end.

Definition decimal_value (s : pystr) : Z :=
  fold_left (λ acc c, 10 * acc + default 0 (char_digit c)) s 0.

(** No more characters than [int] converts digits. *)
Definition within_digit_limit (s : pystr) : bool :=
  (N.of_nat (length s) <=? int_max_str_digits)%N.

(** The ASCII character [int] reads in place of [c]. *)
Definition to_ascii (c : N) : N :=
  match char_class c with
  | UDecimal d => ascii_of_digit d
  | _ => 63%N
  end.

(** *** [parse_required_constants] *)

(** The body of the loop, for one token. *)
Definition parse_token (token : pystr) (out : gmap pystr Z)
  : result (gmap pystr Z) :=
  match split colon token with
  | [reg; value] =>
      if negb (is_gpr_name reg) then
        Raise (ValueError (NotValidGPR token reg))
      else if negb (isnumeric value) then
        Raise (ValueError (NotNumeric token value))
      else
        match py_int value with
        | None => Raise (ValueError (InvalidLiteral value))
        | Some value =>
            if (value <? 0) || (value >? GPR_MAX) then
              Raise (ValueError (OutOfRange token value))
            else Ok (<[reg := value]> out)
        end
  | _ => Raise (ValueError (CouldNotParse token))
  end.

Fixpoint parse_loop (constants : list pystr) (out : gmap pystr Z)
  : result (gmap pystr Z) :=
  match constants with
  | [] => Ok out
  | token :: rest => parse_token token out ≫= parse_loop rest
  end.

Definition parse_required_constants (constants : list pystr)
  : result (gmap pystr Z) :=
  parse_loop constants ∅.

(** [token] is well formed and names the register [reg] with the value
    [v]: a general-purpose register, a colon, a decimal string of no more
    digits than [int] converts, for a number of at most [2^32 - 1]. *)
Definition names (token reg : pystr) (v : Z) : Prop :=
  ∃ value, split colon token = [reg; value] ∧ is_gpr_name reg = true
           ∧ isdecimal value = true ∧ v = decimal_value value
           ∧ v ≤ 2 ^ 32 - 1 ∧ within_digit_limit value = true.

Definition well_formed (token : pystr) : Prop :=
  ∃ reg v, names token reg v.

End Parse.

(** ** Auxiliary notions of the proofs *)

(** The facts about the ASCII range that the proofs use, as a check that
    is run on every code point below 128. *)
Definition ascii_class_ok (c : N) : bool :=
  match ascii_class c with
  | UDecimal d =>
      (c =? ascii_of_digit d)%N
      && bool_decide (ascii_digit c = Some (digit_value d))
  | UNumeric => false
  | _ => true
  end.

(** The value of a string of ASCII digits read after [acc]. *)
Definition ascii_value (acc : Z) (ds : pystr) : Z :=
  fold_left (λ a c, 10 * a + default 0 (ascii_digit c)) ds acc.

(** What may follow the digits: the end, or a character that is neither a
    digit nor an underscore. *)
Definition stops (rest : pystr) : Prop :=
  match rest with
  | [] => True
  | c :: _ => (c =? 95)%N = false ∧ ascii_digit c = None
  end.

(** The piece of a token before its first colon. *)
Definition register_part (token : pystr) : pystr :=
  hd [] (split colon token).

(** ** The driver *)

(** The namespace returned by [parser.parse_args()]. *)
Record Args := {
  elf : pystr;
  verbose : bool;
  subroutine : option pystr;
  constants : option (list pystr);
  secrets : option (list pystr);
}.

(** Modelled from the spec: [shared.check.CheckResult], the reporter that
    "aggregates pass/fail/warning status": the errors and the warnings
    handed to it so far.  [report] renders the whole record, so the line
    printed is represented by the record itself. *)
Record CheckResult := {
  errors : list pystr;
  warnings : list pystr;
}.

(** Modelled from the spec: [CheckResult()], nothing reported yet. *)
Definition CheckResult_new : CheckResult :=
  {| errors := []; warnings := [] |}.

(** Modelled from the spec: [out.err(msg)] adds an error. *)
Definition err (out : CheckResult) (msg : pystr) : CheckResult :=
  {| errors := errors out ++ [msg]; warnings := warnings out |}.

(** Modelled from the spec: [out.has_errors()], the fail status. *)
Definition has_errors (out : CheckResult) : bool :=
  negb (length (errors out) =? 0)%nat.

(** Modelled from the spec: [out.has_warnings()], the warning status. *)
Definition has_warnings (out : CheckResult) : bool :=
  negb (length (warnings out) =? 0)%nat.

(** What the driver prints, with the arguments of each format string. *)
Inductive message :=
| SinglePathNotice (to_analyze : pystr)
| AnalyzingNotice (to_analyze : pystr) (secrets : list pystr)
    (constants : gmap pystr Z)
| Report (out : CheckResult).

(** What the driver does to the outside, in order. *)
Inductive event :=
| DecodeElf (elf : pystr)
| ProgramControlGraph
| SubroutineControlGraph (subroutine : pystr)
| ProgramIFlow
| SubroutineIFlow (subroutine : pystr) (constants : gmap pystr Z)
| Printed (msg : message).

(** Computations that log their events and may raise. *)
Definition M (A : Type) : Type := list event → list event * result A.

#[global] Instance M_ret : MRet M := λ A a log, (log, Ok a).

#[global] Instance M_bind : MBind M := λ A B k m log,
  match m log with
  | (log', Ok a) => k a log'
  | (log', Raise e) => (log', Raise e)
  end.

Definition raise {A} (e : exn) : M A := λ log, (log, Raise e).

Definition emit (ev : event) : M () := λ log, (log ++ [ev], Ok ()).

Definition lift {A} (r : result A) : M A := λ log, (log, r).

(** A call into another module: the call is logged, then it returns or
    raises. *)
Definition call {A} (ev : event) (r : result A) : M A :=
  emit ev ≫= λ _, lift r.

Definition print (msg : message) : M () := emit (Printed msg).

Definition run {A} (m : M A) : list event * result A := m [].

Section Main.

Variable unicode_class : N → uclass.

(** The decoded program, the control graph, the information-flow graph
    and the set of program counters of a control dependency. *)
Variables Program Graph IFlow PCs : Type.

(** [shared.decode], [shared.control_flow],
    [shared.information_flow_analysis]. *)
Variable decode_elf : pystr → result Program.
Variable program_control_graph : Program → result Graph.
Variable subroutine_control_graph : Program → pystr → result Graph.
Variable get_program_iflow :
  Program → Graph → result (IFlow * gmap pystr PCs).
Variable get_subroutine_iflow :
  Program → Graph → pystr → gmap pystr Z →
  result (IFlow * IFlow * gmap pystr PCs).
Variable stringify_control_deps :
  Program → gmap pystr PCs → list pystr.

(** Lines 89-97: the initial constants. *)
Definition initial_constants (args : Args) : M (gmap pystr Z) :=
  match constants args with
  | None => mret ∅
  | Some cs =>
      match subroutine args with
      | None => raise (ValueError ConstantsWithoutSubroutine)
      | Some _ => lift (parse_required_constants unicode_class cs)
      end
  end.

(** Lines 100-109: the control graph and the nodes that influence
    control flow. *)
Definition control_dependencies (args : Args) (program : Program)
    (constants : gmap pystr Z) : M (pystr * gmap pystr PCs) :=
  match subroutine args with
  | None =>
      graph ← call ProgramControlGraph (program_control_graph program);
      '(_, control_deps) ← call ProgramIFlow
                                (get_program_iflow program graph);
      mret (py "entire program", control_deps)
  | Some sub =>
      graph ← call (SubroutineControlGraph sub)
                   (subroutine_control_graph program sub);
      '(_, _, control_deps) ←
        call (SubroutineIFlow sub constants)
             (get_subroutine_iflow program graph sub constants);
      mret (py "subroutine " ++ sub, control_deps)
  end.

(** Lines 111-126: the control dependencies the verdict is about. *)
Definition secret_control_deps (control_deps : gmap pystr PCs)
    (secrets : option (list pystr)) : gmap pystr PCs :=
  match secrets with
  | None => control_deps
  | Some secrets =>
      filter (λ '(node, pcs), node ∈ secrets) control_deps
  end.

Definition error_message (program : Program)
    (deps : gmap pystr PCs) : pystr :=
  py "The following secrets may influence control flow:" ++ [10; 32; 32]%N
  ++ join [10; 32; 32]%N (stringify_control_deps program deps).

(** Lines 128-134. *)
Definition check_result (program : Program)
    (deps : gmap pystr PCs) : CheckResult :=
  if negb (size deps =? 0)%nat
  then err CheckResult_new (error_message program deps)
  else CheckResult_new.

(** Lines 111-142: from the control dependencies to the exit status. *)
Definition verdict (args : Args) (program : Program) (to_analyze : pystr)
    (constants : gmap pystr Z) (control_deps : gmap pystr PCs) : M Z :=
  match secrets args with
  | None =>
      if verbose args then print (SinglePathNotice to_analyze)
      else mret ()
  | Some s =>
      if verbose args then print (AnalyzingNotice to_analyze s constants)
      else mret ()
  end ;;
  let out :=
    check_result program (secret_control_deps control_deps (secrets args)) in
  (if verbose args || has_errors out || has_warnings out
   then print (Report out) else mret ()) ;;
  if has_errors out || has_warnings out then mret 1 else mret 0.

(** Lines 89-109: everything before the verdict. *)
Definition analysis (args : Args)
  : M (gmap pystr Z * Program * pystr * gmap pystr PCs) :=
  constants ← initial_constants args;
  program ← call (DecodeElf (elf args)) (decode_elf (elf args));
  '(to_analyze, control_deps) ← control_dependencies args program constants;
  mret (constants, program, to_analyze, control_deps).

(** [main] from line 89 on, for the [args] that [parser.parse_args()]
    returned at line 87.  The parser, with its usage and help messages and
    the [SystemExit] it raises on them, is [argparse]'s and is not part of
    this model. *)
Definition main (args : Args) : M Z :=
  '(constants, program, to_analyze, control_deps) ← analysis args;
  verdict args program to_analyze constants control_deps.

End Main.

(** ** A small instance of the other modules, for the examples

    Every ELF decodes; the analysis finds that [x5] influences the branch
    at 0x100 and [x7] the branches at 0x104 and 0x108. *)
Definition toy_control_deps : gmap pystr (list Z) :=
  <[py "x5" := [256]]> (<[py "x7" := [260; 264]]> ∅).

Definition toy_stringify (program : ()) (deps : gmap pystr (list Z))
  : list pystr :=
  (λ kv : pystr * list Z, kv.1) <$> map_to_list deps.

Definition toy_decode_elf (elf : pystr) : result () := Ok ().

Definition toy_program_control_graph (program : ()) : result () := Ok ().

Definition toy_subroutine_control_graph (program : ()) (subroutine : pystr)
  : result () := Ok ().

Definition toy_get_program_iflow (program graph : ())
  : result (() * gmap pystr (list Z)) := Ok ((), toy_control_deps).

Definition toy_get_subroutine_iflow (program graph : ()) (subroutine : pystr)
    (constants : gmap pystr Z)
  : result (() * () * gmap pystr (list Z)) := Ok ((), (), toy_control_deps).

Definition toy_analysis
  : Args → M (gmap pystr Z * () * pystr * gmap pystr (list Z)) :=
  analysis latin1_class () () () (list Z) toy_decode_elf
    toy_program_control_graph toy_subroutine_control_graph
    toy_get_program_iflow toy_get_subroutine_iflow.

Definition toy_main : Args → M Z :=
  main latin1_class () () () (list Z) toy_decode_elf
    toy_program_control_graph toy_subroutine_control_graph
    toy_get_program_iflow toy_get_subroutine_iflow toy_stringify.

Definition toy_args (sub : option pystr) (cs secs : option (list pystr))
  : Args :=
  {| elf := py "prog.elf"; verbose := false; subroutine := sub;
     constants := cs; secrets := secs |}.

(** ** The lines of the report *)

(** Modelled from the spec: [stringify_control_deps] of
    [shared.information_flow_analysis], which is not among the sources.
    The report is to give "each secret and its associated branch
    addresses": one line for each entry of the mapping.  How a label and
    its addresses are written on a line is left to [render]. *)
Definition stringify_entries {Program PCs : Type}
    (render : Program → pystr → PCs → pystr)
    (program : Program) (deps : gmap pystr PCs) : list pystr :=
  (λ kv : pystr * PCs, render program kv.1 kv.2) <$> map_to_list deps.

(** A rendering for the examples: the label, then its addresses. *)
Definition toy_render (program : ()) (node : pystr) (pcs : list Z) : pystr :=
  node ++ py " (via "
  ++ join (py ", ") ((λ pc : Z, py (pretty pc)) <$> pcs) ++ py ")".

Definition toy_report_main : Args → M Z :=
  main latin1_class () () () (list Z) toy_decode_elf
    toy_program_control_graph toy_subroutine_control_graph
    toy_get_program_iflow toy_get_subroutine_iflow
    (stringify_entries toy_render).

(** ** Further notions of the properties *)

(** A decimal string of 4301 digits that denotes 7. *)
Definition zeros_then_seven : pystr := replicate 4300 48%N ++ py "7".

(** The number of colons of a token. *)
Definition colons (token : pystr) : nat :=
  length (filter (λ c, c = colon) token).

(** The arguments with another [--secrets], or another [--verbose]. *)
Definition with_secrets (s : option (list pystr)) (args : Args) : Args :=
  {| elf := elf args; verbose := verbose args;
     subroutine := subroutine args; constants := constants args;
     secrets := s |}.

Definition with_verbose (b : bool) (args : Args) : Args :=
  {| elf := elf args; verbose := b;
     subroutine := subroutine args; constants := constants args;
     secrets := secrets args |}.

Definition is_print (ev : event) : bool :=
  match ev with
  | Printed _ => true
  | _ => false
  end.

(** The calls into the other modules, without what is printed. *)
Definition calls (log : list event) : list event :=
  filter (λ ev, is_print ev = false) log.

(** The calls of a complete run, in order: whole program, or subroutine
    with the constants handed to the analysis. *)
Definition calls_of_mode (args : Args) (constants : gmap pystr Z)
  : list event :=
  DecodeElf (elf args)
  :: match subroutine args with
     | None => [ProgramControlGraph; ProgramIFlow]
     | Some sub => [SubroutineControlGraph sub; SubroutineIFlow sub constants]
     end.

(** The shape of a GPR name: an [x], then one digit, or two digits that
    do not start with a zero and denote a number below 32. *)
Definition gpr_shape (name : pystr) : bool :=
  match name with
  | [x; d] => ((x =? 120) && (48 <=? d) && (d <=? 57))%N
  | [x; d1; d2] =>
      ((x =? 120) && (49 <=? d1) && (d1 <=? 57) && (48 <=? d2) && (d2 <=? 57)
       && (10 * (d1 - 48) + (d2 - 48) <? 32))%N
  | _ => false
  end.

(** * Properties *)

(** ** Splitting at a separator *)

Lemma split_no_sep sep s : sep ∉ s → split sep s = [s].
Proof.
  induction s as [|c s IH]; intros Hs; [done|].
  apply not_elem_of_cons in Hs as [Hc Hs]. simpl.
  destruct (N.eqb_spec c sep) as [->|_]; [done|]. by rewrite IH.
Qed.

Lemma split_app sep a b :
  sep ∉ a → split sep (a ++ sep :: b) = a :: split sep b.
Proof.
  induction a as [|c a IH]; intros Ha; simpl.
  - by rewrite N.eqb_refl.
  - apply not_elem_of_cons in Ha as [Hc Ha].
    destruct (N.eqb_spec c sep) as [->|_]; [done|]. by rewrite IH.
Qed.

Lemma split_pair sep a b :
  sep ∉ a → sep ∉ b → split sep (a ++ sep :: b) = [a; b].
Proof. intros Ha Hb. by rewrite split_app, split_no_sep. Qed.

(** ** Bounded case analysis on code points *)

Lemma forall_below (P : N → bool) (n : nat) :
  forallb P (N.of_nat <$> seq 0 n) = true →
  ∀ c, (c < N.of_nat n)%N → P c = true.
Proof.
  intros H c Hc. rewrite forallb_forall in H. apply H.
  apply list_elem_of_In, list_elem_of_fmap. exists (N.to_nat c). split; [lia|].
  apply list_elem_of_In, in_seq. lia.
Qed.

Lemma ascii_class_below c : (c < 128)%N → ascii_class_ok c = true.
Proof. apply (forall_below ascii_class_ok 128). by vm_compute. Qed.

Lemma ascii_class_decimal c d :
  (c < 128)%N → ascii_class c = UDecimal d →
  c = ascii_of_digit d ∧ ascii_digit c = Some (digit_value d).
Proof.
  intros Hc Hd. pose proof (ascii_class_below c Hc) as H.
  unfold ascii_class_ok in H. rewrite Hd in H.
  apply andb_prop in H as [H1 H2].
  apply N.eqb_eq in H1. by apply bool_decide_eq_true in H2.
Qed.

Lemma ascii_class_not_numeric c : (c < 128)%N → ascii_class c ≠ UNumeric.
Proof.
  intros Hc Hd. pose proof (ascii_class_below c Hc) as H.
  unfold ascii_class_ok in H. by rewrite Hd in H.
Qed.

Lemma ascii_of_digit_spec d :
  ascii_digit (ascii_of_digit d) = Some (digit_value d)
  ∧ (ascii_of_digit d < 127)%N.
Proof. by destruct d. Qed.

Lemma ascii_digit_range c v :
  ascii_digit c = Some v → (48 ≤ c ≤ 57)%N ∧ v = Z.of_N c - 48.
Proof.
  unfold ascii_digit. intros H.
  destruct (48 <=? c)%N eqn:H1; [|done].
  destruct (c <=? 57)%N eqn:H2; [|done].
  simpl in H. injection H as <-.
  apply N.leb_le in H1. apply N.leb_le in H2. lia.
Qed.

Lemma ascii_digit_plain c :
  is_Some (ascii_digit c) →
  is_c_space c = false ∧ (c =? 43)%N = false ∧ (c =? 45)%N = false
  ∧ (c =? 95)%N = false.
Proof.
  intros [v Hv]. apply ascii_digit_range in Hv as [Hc _].
  unfold is_c_space.
  assert ((c <=? 13)%N = false) as -> by (apply N.leb_gt; lia).
  assert ((c =? 32)%N = false) as -> by (apply N.eqb_neq; lia).
  rewrite andb_false_r.
  repeat split; apply N.eqb_neq; lia.
Qed.

(** ** Reading the digits *)

Lemma scan_digits_cons c s prev_us digits acc :
  scan_digits (c :: s) prev_us digits acc
  = if (c =? 95)%N then
      if prev_us then None else scan_digits s true digits acc
    else match ascii_digit c with
         | Some d => scan_digits s false (N.succ digits) (10 * acc + d)
         | None => if prev_us then None else Some (acc, digits, c :: s)
         end.
Proof. done. Qed.

Lemma scan_digits_app ds rest digits acc :
  Forall (λ c, is_Some (ascii_digit c)) ds → stops rest →
  scan_digits (ds ++ rest) false digits acc
  = Some (ascii_value acc ds, (digits + N.of_nat (length ds))%N, rest).
Proof.
  intros Hds Hrest. revert digits acc.
  induction Hds as [|c ds [v Hv] _ IH]; intros digits acc.
  - rewrite app_nil_l, N.add_0_r. destruct rest as [|c rest]; [done|].
    destruct Hrest as [H1 H2]. by rewrite scan_digits_cons, H1, H2.
  - destruct (ascii_digit_plain c) as (_ & _ & _ & Hus); [by eexists|].
    rewrite <- app_comm_cons, scan_digits_cons, Hus, Hv, IH.
    unfold ascii_value. simpl fold_left. rewrite Hv.
    do 2 f_equal. f_equal. rewrite length_cons. lia.
Qed.

Lemma ascii_value_nonneg ds acc : 0 ≤ acc → 0 ≤ ascii_value acc ds.
Proof.
  revert acc. induction ds as [|c ds IH]; intros acc Hacc; [done|].
  apply IH. destruct (ascii_digit c) as [v|] eqn:Hv; simpl; [|lia].
  apply ascii_digit_range in Hv. lia.
Qed.

Lemma skip_space_cons c s :
  skip_space (c :: s) = if is_c_space c then skip_space s else c :: s.
Proof. done. Qed.

Lemma long_from_string_digit_head d s :
  is_Some (ascii_digit d) →
  long_from_string (d :: s)
  = match scan_digits (d :: s) false 0 0 with
    | Some (v, digits, rest) =>
        if (digits =? 0)%N then None
        else if (int_max_str_digits <? digits)%N then None
        else match skip_space rest with
             | [] => Some v
             | _ => None
             end
    | None => None
    end.
Proof.
  intros Hd. destruct (ascii_digit_plain d Hd) as (Hsp & Hplus & Hminus & Hus).
  unfold long_from_string. rewrite skip_space_cons, Hsp. cbv zeta.
  rewrite Hplus, Hminus. unfold leading_underscore. rewrite Hus.
  destruct (scan_digits _ _ _ _) as [[[v digits] rest]|]; [|done].
  destruct (digits =? 0)%N; [done|].
  destruct (int_max_str_digits <? digits)%N; [done|].
  destruct (skip_space rest); [|done]. f_equal. lia.
Qed.

(** A non-empty string of ASCII digits is converted when it has no more
    digits than the limit, and refused otherwise; followed by a question
    mark it is refused. *)
Lemma long_from_string_digits ds :
  Forall (λ c, is_Some (ascii_digit c)) ds → ds ≠ [] →
  long_from_string ds
  = (if within_digit_limit ds then Some (ascii_value 0 ds) else None)
  ∧ long_from_string (ds ++ [63%N]) = None.
Proof.
  intros Hds Hne. destruct ds as [|d ds]; [done|].
  pose proof (Forall_inv Hds) as Hd.
  assert ((0 + N.of_nat (length (d :: ds)) =? 0)%N = false) as Hpos
    by (apply N.eqb_neq; rewrite length_cons; lia).
  split.
  - rewrite long_from_string_digit_head by done.
    rewrite <- (app_nil_r (d :: ds)) at 1.
    rewrite scan_digits_app, Hpos by done. unfold within_digit_limit.
    rewrite N.add_0_l.
    destruct (N.ltb_spec int_max_str_digits (N.of_nat (length (d :: ds))))
      as [Hlt|Hle].
    + by rewrite (proj2 (N.leb_gt _ _) Hlt).
    + by rewrite (proj2 (N.leb_le _ _) Hle).
  - rewrite <- app_comm_cons, long_from_string_digit_head by done.
    rewrite app_comm_cons, scan_digits_app, Hpos by done.
    by destruct (int_max_str_digits <? _)%N.
Qed.

(** ** [int] on numeric strings *)

Section IntFacts.

Variable U : N → uclass.

Lemma decimal_char_numeric c :
  is_decimal_char U c = true → is_numeric_char U c = true.
Proof.
  unfold is_decimal_char, is_numeric_char. by destruct (char_class U c).
Qed.

Lemma isdecimal_isnumeric s : isdecimal U s = true → isnumeric U s = true.
Proof.
  destruct s as [|c s]; [done|]. unfold isdecimal, isnumeric.
  rewrite !forallb_forall. intros H x Hx. by apply decimal_char_numeric, H.
Qed.

(** The ASCII digit CPython substitutes for a decimal digit. *)
Lemma to_ascii_digit c :
  is_decimal_char U c = true →
  ∃ d, char_class U c = UDecimal d
       ∧ ascii_digit (to_ascii U c) = char_digit U c
       ∧ (c < 128 → c = to_ascii U c)%N.
Proof.
  unfold is_decimal_char, to_ascii, char_digit.
  destruct (char_class U c) as [d| | |] eqn:Hc; try done. intros _.
  exists d. split; [done|]. split; [apply ascii_of_digit_spec|].
  intros Hlt. unfold char_class in Hc.
  apply N.ltb_lt in Hlt as Hlt'. rewrite Hlt' in Hc.
  by apply ascii_class_decimal in Hc as [-> _].
Qed.

Lemma transform_chars_decimal p rest :
  forallb (is_decimal_char U) p = true →
  transform_chars U (p ++ rest) = (to_ascii U <$> p) ++ transform_chars U rest.
Proof.
  induction p as [|c p IH]; [done|]. simpl. intros H.
  apply andb_prop in H as [Hc Hp]. rewrite IH by done.
  destruct (to_ascii_digit c Hc) as (d & Hd & _ & Hlt).
  destruct (N.ltb_spec c 127) as [H127|H127].
  - by rewrite <- Hlt by lia.
  - rewrite Hd. unfold to_ascii. by rewrite Hd.
Qed.

Lemma transform_decimal s :
  forallb (is_decimal_char U) s = true →
  transform_decimal_and_space U s = to_ascii U <$> s.
Proof.
  intros Hs. unfold transform_decimal_and_space.
  destruct (forallb (λ c, c <? 128)%N s) eqn:Hascii.
  - rewrite forallb_forall in Hs, Hascii.
    rewrite <- (list_fmap_id s) at 1. apply list_fmap_ext.
    intros i c Hc. apply list_elem_of_lookup_2, list_elem_of_In in Hc.
    destruct (to_ascii_digit c (Hs c Hc)) as (_ & _ & _ & Hlt).
    apply Hlt, N.ltb_lt, (Hascii c Hc).
  - rewrite <- (app_nil_r s) at 1.
    by rewrite transform_chars_decimal, app_nil_r.
Qed.

Lemma to_ascii_digits s :
  forallb (is_decimal_char U) s = true →
  Forall (λ c, is_Some (ascii_digit c)) (to_ascii U <$> s).
Proof.
  rewrite forallb_forall. intros Hs. apply Forall_fmap, Forall_forall.
  intros c Hc%list_elem_of_In.
  destruct (to_ascii_digit c (Hs c Hc)) as (d & Hd & Heq & _).
  simpl. rewrite Heq. unfold char_digit. rewrite Hd. by eexists.
Qed.

Lemma to_ascii_value s acc :
  forallb (is_decimal_char U) s = true →
  ascii_value acc (to_ascii U <$> s)
  = fold_left (λ a c, 10 * a + default 0 (char_digit U c)) s acc.
Proof.
  revert acc. induction s as [|c s IH]; intros acc Hs; [done|].
  simpl in Hs. apply andb_prop in Hs as [Hc Hs].
  destruct (to_ascii_digit c Hc) as (_ & _ & Heq & _).
  unfold ascii_value in *. simpl. rewrite Heq. by apply IH.
Qed.

(** On a decimal string [int] returns the number the string denotes,
    unless the string has more digits than the limit. *)
Lemma py_int_decimal_limit s :
  isdecimal U s = true →
  py_int U s = if within_digit_limit s then Some (decimal_value U s) else None.
Proof.
  intros Hs. assert (s ≠ []) as Hne by (by destruct s).
  assert (forallb (is_decimal_char U) s = true) as Hall by (by destruct s).
  unfold py_int, decimal_value. rewrite transform_decimal by done.
  destruct (long_from_string_digits (to_ascii U <$> s)) as [-> _].
  - by apply to_ascii_digits.
  - by destruct s.
  - unfold within_digit_limit. rewrite length_fmap.
    by rewrite to_ascii_value.
Qed.

Lemma py_int_decimal s :
  isdecimal U s = true → within_digit_limit s = true →
  py_int U s = Some (decimal_value U s).
Proof. intros Hs Hl. by rewrite py_int_decimal_limit, Hl. Qed.

Lemma decimal_value_nonneg s : 0 ≤ decimal_value U s.
Proof.
  assert (∀ acc, 0 ≤ acc →
    0 ≤ fold_left (λ a c, 10 * a + default 0 (char_digit U c)) s acc) as H.
  { induction s as [|c s IH]; intros acc Hacc; [done|]. apply IH.
    unfold char_digit. destruct (char_class U c) as [[]| | |]; simpl; lia. }
  by apply H.
Qed.

(** A numeric string that is not decimal has a first character that is
    numeric without being a decimal digit; it lies beyond ASCII. *)
Lemma numeric_not_decimal s :
  forallb (is_numeric_char U) s = true →
  forallb (is_decimal_char U) s = false →
  ∃ p c r, s = p ++ c :: r ∧ forallb (is_decimal_char U) p = true
           ∧ char_class U c = UNumeric ∧ (128 ≤ c)%N.
Proof.
  induction s as [|c s IH]; [done|]. simpl.
  intros [Hc Hs]%andb_prop Hd.
  destruct (is_decimal_char U c) eqn:Hdc.
  - destruct (IH Hs Hd) as (p & c' & r & -> & Hp & Hc' & Hge).
    exists (c :: p), c', r. simpl. by rewrite Hdc, Hp.
  - exists [], c, s. unfold is_numeric_char in Hc.
    unfold is_decimal_char in Hdc.
    destruct (char_class U c) eqn:Hcl; try done.
    repeat split. unfold char_class in Hcl.
    destruct (N.ltb_spec c 128) as [Hlt|Hge]; [|done].
    by apply ascii_class_not_numeric in Hcl.
Qed.

(** On a numeric string that is not decimal [int] raises. *)
Lemma py_int_not_decimal s :
  isnumeric U s = true → isdecimal U s = false → py_int U s = None.
Proof.
  intros Hn Hd. destruct s as [|c0 s0]; [done|].
  unfold isnumeric in Hn. unfold isdecimal in Hd.
  destruct (numeric_not_decimal _ Hn Hd) as (p & c & r & -> & Hp & Hc & Hge).
  unfold py_int, transform_decimal_and_space.
  assert (forallb (λ c, c <? 128)%N (p ++ c :: r) = false) as ->.
  { rewrite forallb_app. simpl.
    assert ((c <? 128)%N = false) as -> by (apply N.ltb_ge; lia).
    by rewrite andb_false_r. }
  rewrite transform_chars_decimal by done. simpl transform_chars.
  assert ((c <? 127)%N = false) as -> by (apply N.ltb_ge; lia).
  rewrite Hc. destruct p as [|d p]; [done|].
  destruct (long_from_string_digits (to_ascii U <$> d :: p)) as [_ H].
  - by apply to_ascii_digits.
  - done.
  - exact H.
Qed.

Lemma py_int_numeric s :
  isnumeric U s = true →
  py_int U s
  = if isdecimal U s && within_digit_limit s
    then Some (decimal_value U s) else None.
Proof.
  intros Hn. destruct (isdecimal U s) eqn:Hd.
  - by apply py_int_decimal_limit.
  - by apply py_int_not_decimal.
Qed.

End IntFacts.

(** ** One token *)

Lemma GPR_MAX_eq : GPR_MAX = 2 ^ 32 - 1.
Proof. done. Qed.

Lemma gpr_name_no_colon reg : is_gpr_name reg = true → colon ∉ reg.
Proof.
  intros H%bool_decide_eq_true. revert reg H. apply Forall_forall.
  apply (bool_decide_unpack _). by vm_compute.
Qed.

Section ParseFacts.

Variable U : N → uclass.

Lemma decimal_no_colon value :
  forallb (is_decimal_char U) value = true → colon ∉ value.
Proof.
  rewrite forallb_forall. intros H Hin%list_elem_of_In.
  by specialize (H _ Hin).
Qed.

(** A well-formed token is accepted, and binds its register. *)
Lemma parse_token_names token reg v out :
  names U token reg v → parse_token U token out = Ok (<[reg := v]> out).
Proof.
  intros (value & Hsplit & Hgpr & Hdec & -> & Hle & Hlim).
  unfold parse_token. rewrite Hsplit, Hgpr. simpl.
  rewrite (isdecimal_isnumeric U value Hdec). simpl.
  rewrite (py_int_decimal U value Hdec Hlim).
  pose proof (decimal_value_nonneg U value) as Hnn.
  assert ((decimal_value U value <? 0) = false) as -> by lia.
  assert ((decimal_value U value >? GPR_MAX) = false) as ->
    by (rewrite GPR_MAX_eq; lia).
  done.
Qed.

(** The exhaustive case analysis of the loop body. *)
Lemma parse_token_cases token out :
  (∃ reg v, names U token reg v
            ∧ parse_token U token out = Ok (<[reg := v]> out))
  ∨ (∃ e, ∀ out', parse_token U token out' = Raise (ValueError e)).
Proof.
  unfold parse_token.
  destruct (split colon token) as [|reg [|value [|]]] eqn:Hsplit;
    try (right; by eexists).
  destruct (is_gpr_name reg) eqn:Hgpr; simpl; [|right; by eexists].
  destruct (isnumeric U value) eqn:Hnum; simpl; [|right; by eexists].
  rewrite (py_int_numeric U value Hnum).
  destruct (isdecimal U value) eqn:Hdec; [|right; by eexists].
  destruct (within_digit_limit value) eqn:Hlim; [|right; by eexists].
  cbn [andb].
  pose proof (decimal_value_nonneg U value) as Hnn.
  assert ((decimal_value U value <? 0) = false) as -> by lia. simpl.
  destruct (Z.gtb_spec (decimal_value U value) GPR_MAX) as [Hgt|Hle];
    [right; by eexists|].
  left. exists reg, (decimal_value U value). split; [|done].
  exists value. rewrite GPR_MAX_eq in Hle. done.
Qed.

Lemma names_functional token reg v reg' v' :
  names U token reg v → names U token reg' v' → reg = reg' ∧ v = v'.
Proof.
  intros (value & H1 & _ & _ & -> & _) (value' & H2 & _ & _ & -> & _).
  rewrite H1 in H2. by injection H2 as -> ->.
Qed.

Lemma parse_token_ok token out m :
  parse_token U token out = Ok m →
  ∃ reg v, names U token reg v ∧ m = <[reg := v]> out.
Proof.
  intros H. destruct (parse_token_cases token out)
    as [(reg & v & Hn & Hok)|[e He]]; [|by rewrite He in H].
  exists reg, v. split; [done|]. congruence.
Qed.

Lemma parse_token_raise token out e :
  parse_token U token out = Raise e →
  ∃ ve, e = ValueError ve ∧ ∀ out', parse_token U token out' = Raise e.
Proof.
  intros H. destruct (parse_token_cases token out)
    as [(reg & v & Hn & Hok)|[ve He]]; [by rewrite Hok in H|].
  exists ve. rewrite He in H. injection H as <-. done.
Qed.

Lemma well_formed_accepted token out :
  well_formed U token ↔ ∃ m, parse_token U token out = Ok m.
Proof.
  split.
  - intros (reg & v & Hn). eexists. by apply parse_token_names.
  - intros [m (reg & v & Hn & _)%parse_token_ok]. by exists reg, v.
Qed.

(** ** The loop *)

Lemma parse_loop_cons token rest out :
  parse_loop U (token :: rest) out
  = parse_token U token out ≫= parse_loop U rest.
Proof. done. Qed.

Lemma parse_loop_app l1 l2 out :
  parse_loop U (l1 ++ l2) out = parse_loop U l1 out ≫= parse_loop U l2.
Proof.
  revert out. induction l1 as [|t l1 IH]; intros out; [done|].
  rewrite <- app_comm_cons, !parse_loop_cons.
  destruct (parse_token U t out) as [m|e]; [apply IH|done].
Qed.

(** Whatever the loop raises is a [ValueError]. *)
Lemma parse_loop_raise constants out e :
  parse_loop U constants out = Raise e → ∃ ve, e = ValueError ve.
Proof.
  revert out. induction constants as [|t l IH]; intros out; [done|].
  rewrite parse_loop_cons.
  destruct (parse_token U t out) as [m|e'] eqn:Ht; simpl.
  - apply IH.
  - intros [= <-]. apply parse_token_raise in Ht as (ve & -> & _).
    by eexists.
Qed.

(** A token the body rejects makes the loop raise. *)
Lemma parse_loop_rejects constants token out :
  token ∈ constants →
  (∀ out', ∃ e, parse_token U token out' = Raise e) →
  is_value_error (parse_loop U constants out).
Proof.
  intros Hin Hbad.
  destruct (parse_loop U constants out) as [m|e] eqn:Hloop.
  - exfalso. revert out Hloop.
    induction Hin as [token l|token t l Hin IH]; intros out;
      rewrite parse_loop_cons.
    + by destruct (Hbad out) as [e ->].
    + destruct (parse_token U t out) as [m'|]; simpl; [by apply IH|done].
  - apply parse_loop_raise in Hloop as [ve ->]. by eexists.
Qed.

(** The loop succeeds exactly on lists of well-formed tokens. *)
Lemma parse_loop_ok_iff constants out :
  (∃ m, parse_loop U constants out = Ok m) ↔ Forall (well_formed U) constants.
Proof.
  revert out. induction constants as [|t l IH]; intros out.
  - split; [done|]. by eexists.
  - rewrite parse_loop_cons, Forall_cons. split.
    + intros [m Hm]. destruct (parse_token U t out) as [m'|] eqn:Ht; [|done].
      split; [apply (well_formed_accepted t out); by eexists|].
      apply (IH m'). by exists m.
    + intros [(m' & Hm')%(well_formed_accepted t out) Hl]. rewrite Hm'.
      by apply IH.
Qed.

(** Tokens that do not name [reg] leave its binding as it was. *)
Lemma parse_loop_other constants reg out m :
  parse_loop U constants out = Ok m →
  (∀ t v, t ∈ constants → ¬ names U t reg v) →
  m !! reg = out !! reg.
Proof.
  revert out. induction constants as [|t l IH]; intros out Hm Hno.
  - by injection Hm as <-.
  - rewrite parse_loop_cons in Hm.
    destruct (parse_token U t out) as [m'|] eqn:Ht; [|done].
    apply parse_token_ok in Ht as (reg' & v & Hn & ->).
    rewrite (IH _ Hm) by (intros t' v' Hin; apply Hno; by right).
    apply lookup_insert_ne. intros ->. apply (Hno t v); [by left|done].
Qed.

End ParseFacts.

(** ** The required constants *)

(** C6. A token [reg:v], with [reg] one of [x0] .. [x31] and [v] a string
    of decimal digits no longer than the 4300 digits [int] converts, is
    accepted exactly when the number [v] denotes is at most [2^32 - 1],
    and the result then maps [reg] to that number; a larger number raises
    [ValueError] (the out-of-range error).  A longer string of digits
    raises the [ValueError] of [int], whatever number it denotes. *)
Theorem parse_constant_within_gpr_range U reg v :
  is_gpr_name reg = true → isdecimal U v = true →
  let token := reg ++ colon :: v in
  (within_digit_limit v = true →
   (decimal_value U v ≤ 2 ^ 32 - 1
    ↔ parse_required_constants U [token] = Ok {[reg := decimal_value U v]})
   ∧ (2 ^ 32 - 1 < decimal_value U v
      ↔ parse_required_constants U [token]
        = Raise (ValueError (OutOfRange token (decimal_value U v)))))
  ∧ (within_digit_limit v = false →
     parse_required_constants U [token]
     = Raise (ValueError (InvalidLiteral v)))
  ∧ (2 ^ 32 - 1 < decimal_value U v →
     is_value_error (parse_required_constants U [token])).
Proof.
  intros Hgpr Hdec token.
  assert (split colon token = [reg; v]) as Hsplit.
  { apply split_pair; [by apply gpr_name_no_colon|].
    apply decimal_no_colon with U. by destruct v. }
  assert (parse_required_constants U [token]
          = if within_digit_limit v
            then if decimal_value U v >? GPR_MAX
                 then Raise (ValueError (OutOfRange token (decimal_value U v)))
                 else Ok {[reg := decimal_value U v]}
            else Raise (ValueError (InvalidLiteral v))) as ->.
  { unfold parse_required_constants. rewrite parse_loop_cons.
    unfold parse_token. rewrite Hsplit, Hgpr. simpl.
    rewrite (isdecimal_isnumeric U v Hdec). simpl.
    rewrite (py_int_decimal_limit U v Hdec).
    destruct (within_digit_limit v); [|done].
    pose proof (decimal_value_nonneg U v) as Hnn.
    assert ((decimal_value U v <? 0) = false) as -> by lia. simpl.
    by destruct (decimal_value U v >? GPR_MAX). }
  rewrite GPR_MAX_eq.
  destruct (within_digit_limit v); (split; [|split]); try done.
  - intros _.
    destruct (Z.gtb_spec (decimal_value U v) (2 ^ 32 - 1)); split; split;
      intros; try done; lia.
  - intros Hgt.
    destruct (Z.gtb_spec (decimal_value U v) (2 ^ 32 - 1)); [by eexists|lia].
  - intros _. by eexists.
Qed.

Lemma parse_constant_within_gpr_range_witness :
  parse_required_constants latin1_class [py "x31:4294967295"]
  = Ok {[py "x31" := 4294967295]}
  ∧ parse_required_constants latin1_class [py "x31:4294967296"]
    = Raise (ValueError (OutOfRange (py "x31:4294967296") 4294967296)).
Proof.
  split.
  - apply (parse_constant_within_gpr_range latin1_class (py "x31")
             (py "4294967295")); [reflexivity..|by vm_compute].
  - apply (parse_constant_within_gpr_range latin1_class (py "x31")
             (py "4294967296")); [reflexivity..|by vm_compute].
Defined.

(** The token [x5:0...07] with 4300 zeros: its value is 7, and it is
    refused, by [int]. *)
Lemma parse_constant_digit_limit_counterexample :
  is_gpr_name (py "x5") = true
  ∧ isdecimal latin1_class zeros_then_seven = true
  ∧ decimal_value latin1_class zeros_then_seven ≤ 2 ^ 32 - 1
  ∧ parse_required_constants latin1_class [py "x5:" ++ zeros_then_seven]
    = Raise (ValueError (InvalidLiteral zeros_then_seven)).
Proof. repeat split; by vm_compute. Qed.

(** A superscript two passes [isnumeric] and is then refused by [int]. *)
Example superscript_two_rejected :
  isnumeric latin1_class [178%N] = true
  ∧ parse_required_constants latin1_class [py "x5:" ++ [178%N]]
    = Raise (ValueError (InvalidLiteral [178%N])).
Proof. by vm_compute. Qed.

(** The limit of [int] on the digits: 4300 are converted, 4301 are not. *)
Example int_digit_limit :
  parse_token latin1_class (py "x5:" ++ replicate 4299 48%N ++ py "7") ∅
  = Ok (<[py "x5" := 7]> ∅)
  ∧ py_int latin1_class (replicate 4301 49%N) = None.
Proof. by vm_compute. Qed.

(** The forms of [int] that [isnumeric] never lets through. *)
Example int_literals :
  py_int latin1_class (py " -1_000 ") = Some (-1000)
  ∧ py_int latin1_class (py "007") = Some 7
  ∧ py_int latin1_class (py "1__0") = None
  ∧ py_int latin1_class (py "0x10") = None.
Proof. by vm_compute. Qed.

(** C7. A token whose register part is not one of [x0] .. [x31] makes
    [parse_required_constants] raise [ValueError]: the loop body raises
    on that token whatever was parsed before, so no mapping is produced
    for it, and a token of the form [reg:value] gets the error that names
    [reg] as not a valid GPR. *)
Theorem non_gpr_register_rejected U constants token :
  token ∈ constants →
  is_gpr_name (register_part token) = false →
  is_value_error (parse_required_constants U constants)
  ∧ (∀ out, is_value_error (parse_token U token out))
  ∧ (∀ reg value out, split colon token = [reg; value] →
       parse_token U token out = Raise (ValueError (NotValidGPR token reg))).
Proof.
  intros Hin Hreg.
  assert (∀ out, is_value_error (parse_token U token out)) as Hbad.
  { intros out. unfold parse_token, register_part in *.
    destruct (split colon token) as [|reg [|value [|]]]; try by eexists.
    simpl in Hreg. rewrite Hreg. by eexists. }
  split; [|split; [done|]].
  - apply parse_loop_rejects with token; [done|].
    intros out. destruct (Hbad out) as [e ->]. by eexists.
  - intros reg value out Hsplit. unfold parse_token, register_part in *.
    rewrite Hsplit in *. simpl in Hreg. by rewrite Hreg.
Qed.

Lemma non_gpr_register_rejected_witness :
  is_value_error
    (parse_required_constants latin1_class [py "x2:7"; py "w5:1"]).
Proof.
  apply (non_gpr_register_rejected latin1_class _ (py "w5:1")).
  - apply list_elem_of_In. right. left. reflexivity.
  - reflexivity.
Defined.

(** C8. A token [reg:value] whose value has a character that is not
    numeric makes [parse_required_constants] raise [ValueError]; with a
    valid register the error is the one for a value that is not numeric.
    Whether the value denotes a number in range plays no part: the values
    the loop body accepts are strings of decimal digits only. *)
Theorem non_numeric_value_rejected U constants token reg value :
  token ∈ constants →
  split colon token = [reg; value] →
  forallb (is_numeric_char U) value = false →
  is_value_error (parse_required_constants U constants)
  ∧ (is_gpr_name reg = true →
     ∀ out, parse_token U token out
            = Raise (ValueError (NotNumeric token value)))
  ∧ (∀ t r v out m, parse_token U t out = Ok m →
       split colon t = [r; v] → isdecimal U v = true).
Proof.
  intros Hin Hsplit Hnum.
  assert (isnumeric U value = false) as Hnot by (by destruct value).
  split; [|split].
  - apply parse_loop_rejects with token; [done|].
    intros out. unfold parse_token. rewrite Hsplit, Hnot.
    destruct (is_gpr_name reg); by eexists.
  - intros Hgpr out. unfold parse_token. by rewrite Hsplit, Hgpr, Hnot.
  - intros t r v out m (r' & n & (v' & Hs & _ & Hd & _) & _)%parse_token_ok Hs'.
    rewrite Hs in Hs'. by injection Hs' as -> ->.
Qed.

Lemma non_numeric_value_rejected_witness :
  is_value_error
    (parse_required_constants latin1_class [py "x5:0xffffffff"])
  ∧ ∀ out, parse_token latin1_class (py "x5:0xffffffff") out
           = Raise (ValueError (NotNumeric (py "x5:0xffffffff")
                                           (py "0xffffffff"))).
Proof.
  destruct (non_numeric_value_rejected latin1_class [py "x5:0xffffffff"]
              (py "x5:0xffffffff") (py "x5") (py "0xffffffff"))
    as (H1 & H2 & _).
  - apply list_elem_of_In. left. reflexivity.
  - reflexivity.
  - reflexivity.
  - split; [exact H1 | apply H2; reflexivity].
Defined.

(** C9. Once [value.isnumeric()] has passed and [int(value)] has returned,
    the integer is not negative, so the range error is raised only for a
    value above [GPR_MAX]; a value that starts with a minus sign, as in
    [x5:-1], is rejected by the not-numeric error, before the range check
    is reached. *)
Theorem range_check_sees_no_negative U :
  (∀ value v, isnumeric U value = true → py_int U value = Some v → 0 ≤ v)
  ∧ (∀ token out token' v,
       parse_token U token out = Raise (ValueError (OutOfRange token' v)) →
       GPR_MAX < v)
  ∧ (∀ token reg rest out,
       split colon token = [reg; 45%N :: rest] → is_gpr_name reg = true →
       parse_token U token out
       = Raise (ValueError (NotNumeric token (45%N :: rest)))).
Proof.
  split; [|split].
  - intros value v Hnum. rewrite (py_int_numeric U value Hnum).
    destruct (isdecimal U value && within_digit_limit value); [|done].
    intros [= <-]. apply decimal_value_nonneg.
  - intros token out token' v. unfold parse_token.
    destruct (split colon token) as [|reg [|value [|]]]; try done.
    destruct (is_gpr_name reg); [|done].
    destruct (isnumeric U value) eqn:Hnum; [|done]. simpl.
    rewrite (py_int_numeric U value Hnum).
    destruct (isdecimal U value && within_digit_limit value); [|done].
    pose proof (decimal_value_nonneg U value) as Hnn.
    assert ((decimal_value U value <? 0) = false) as -> by lia. simpl.
    destruct (Z.gtb_spec (decimal_value U value) GPR_MAX); [|done].
    by intros [= _ <-].
  - intros token reg rest out Hsplit Hgpr. unfold parse_token.
    by rewrite Hsplit, Hgpr.
Qed.

Lemma range_check_sees_no_negative_witness :
  parse_token latin1_class (py "x5:-1") ∅
  = Raise (ValueError (NotNumeric (py "x5:-1") (py "-1"))).
Proof.
  apply (proj2 (proj2 (range_check_sees_no_negative latin1_class)) _ (py "x5"));
    reflexivity.
Defined.

(** C10. A register named by several tokens is not a reason to reject:
    [parse_required_constants] returns a mapping exactly when every token
    on its own is well formed, and the mapping binds a register to the
    value of the last token that names it. *)
Theorem duplicate_register_last_wins U constants :
  ((∃ m, parse_required_constants U constants = Ok m)
   ↔ Forall (well_formed U) constants)
  ∧ (∀ l1 token l2 reg v m,
       constants = l1 ++ token :: l2 →
       names U token reg v →
       (∀ t v', t ∈ l2 → ¬ names U t reg v') →
       parse_required_constants U constants = Ok m →
       m !! reg = Some v).
Proof.
  split; [apply parse_loop_ok_iff|].
  intros l1 token l2 reg v m -> Hn Hlast. unfold parse_required_constants.
  rewrite parse_loop_app.
  destruct (parse_loop U l1 ∅) as [m1|]; [|done]. simpl.
  rewrite (parse_token_names U token reg v m1 Hn). simpl. intros Hm.
  rewrite (parse_loop_other U l2 reg _ m Hm) by (intros t v' ?; by apply Hlast).
  apply lookup_insert_eq.
Qed.

Lemma duplicate_register_last_wins_witness :
  ∃ m, parse_required_constants latin1_class
         [py "x5:1"; py "x7:2"; py "x5:3"; py "x9:4"] = Ok m
       ∧ m !! py "x5" = Some 3.
Proof.
  destruct (duplicate_register_last_wins latin1_class
              [py "x5:1"; py "x7:2"; py "x5:3"; py "x9:4"]) as [[_ Hok] Hlast].
  destruct Hok as [m Hm].
  - repeat (apply Forall_cons; split); [| | | |apply Forall_nil];
      do 3 eexists; repeat split; by vm_compute.
  - exists m. split; [exact Hm|].
    apply (Hlast [py "x5:1"; py "x7:2"] (py "x5:3") [py "x9:4"] (py "x5") 3 m).
    + reflexivity.
    + exists (py "3"). repeat split; by vm_compute.
    + intros t v' Ht (value & Hs & _). apply list_elem_of_In in Ht.
      destruct Ht as [<-|[]]. vm_compute in Hs. congruence.
    + exact Hm.
Defined.

(** ** The verdict *)

(** Runs the monadic operations of a closed piece of the driver. *)
Ltac run_M :=
  cbn; unfold mbind, M_bind, mret, M_ret, call, print, emit, lift, raise; cbn.

Section MainFacts.

Variable unicode_class : N → uclass.
Variables Program Graph IFlow PCs : Type.
Variable decode_elf : pystr → result Program.
Variable program_control_graph : Program → result Graph.
Variable subroutine_control_graph : Program → pystr → result Graph.
Variable get_program_iflow :
  Program → Graph → result (IFlow * gmap pystr PCs).
Variable get_subroutine_iflow :
  Program → Graph → pystr → gmap pystr Z →
  result (IFlow * IFlow * gmap pystr PCs).
Variable stringify_control_deps :
  Program → gmap pystr PCs → list pystr.

Local Abbreviation analysis' := (analysis unicode_class Program Graph IFlow PCs
  decode_elf program_control_graph subroutine_control_graph
  get_program_iflow get_subroutine_iflow).
Local Abbreviation main' := (main unicode_class Program Graph IFlow PCs
  decode_elf program_control_graph subroutine_control_graph
  get_program_iflow get_subroutine_iflow stringify_control_deps).
Local Abbreviation verdict' := (verdict Program PCs stringify_control_deps).
Local Abbreviation check_result' :=
  (check_result Program PCs stringify_control_deps).
Local Abbreviation error_message' :=
  (error_message Program PCs stringify_control_deps).

Lemma check_result_empty (program : Program) (deps : gmap pystr PCs) :
  deps = ∅ → check_result' program deps = CheckResult_new.
Proof. intros ->. done. Qed.

Lemma check_result_nonempty (program : Program) (deps : gmap pystr PCs) :
  deps ≠ ∅ →
  check_result' program deps
  = {| errors := [error_message' program deps]; warnings := [] |}.
Proof.
  intros Hne. unfold check_result.
  destruct (Nat.eqb_spec (size deps) 0) as [Hsz%map_size_empty_iff|]; done.
Qed.

(** The verdict stage: what it prints and the status it returns. *)
Lemma verdict_spec (args : Args) (program : Program) (to_analyze : pystr)
    (constants : gmap pystr Z) (control_deps : gmap pystr PCs)
    (log : list event) :
  let deps := secret_control_deps PCs control_deps (secrets args) in
  ∃ printed,
    verdict' args program to_analyze constants control_deps log
    = (log ++ printed, Ok (if decide (deps = ∅) then 0 else 1))
    ∧ (deps ≠ ∅ →
       last printed
       = Some (Printed (Report {| errors := [error_message' program deps];
                                warnings := [] |})))
    ∧ (deps = ∅ →
       ∀ out, Printed (Report out) ∈ printed →
              errors out = [] ∧ warnings out = []).
Proof.
  intros deps. unfold verdict. fold deps.
  destruct (decide (deps = ∅)) as [He|Hne].
  - rewrite (check_result_empty program deps He).
    exists ((match secrets args with
             | Some s =>
                 if verbose args
                 then [Printed (AnalyzingNotice to_analyze s constants)]
                 else []
             | None =>
                 if verbose args
                 then [Printed (SinglePathNotice to_analyze)] else []
             end)
            ++ if verbose args then [Printed (Report CheckResult_new)]
               else []).
    split; [|split; [done|]].
    + destruct (secrets args), (verbose args); run_M;
        by rewrite <- ?app_assoc, ?app_nil_r.
    + intros _ out Hin%list_elem_of_In.
      destruct (secrets args), (verbose args); simpl in Hin;
        intuition (try discriminate); by simplify_eq.
  - rewrite (check_result_nonempty program deps Hne).
    exists ((match secrets args with
             | Some s =>
                 if verbose args
                 then [Printed (AnalyzingNotice to_analyze s constants)]
                 else []
             | None =>
                 if verbose args
                 then [Printed (SinglePathNotice to_analyze)] else []
             end)
            ++ [Printed (Report {| errors := [error_message' program deps];
                                 warnings := [] |})]).
    split; [|split; [|done]].
    + destruct (secrets args), (verbose args); run_M;
        by rewrite <- ?app_assoc, ?app_nil_r.
    + intros _. by rewrite last_snoc.
Qed.

Lemma main_after_analysis (args : Args) (log log1 : list event)
    (constants : gmap pystr Z) (program : Program) (to_analyze : pystr)
    (control_deps : gmap pystr PCs) :
  analysis' args log
  = (log1, Ok (constants, program, to_analyze, control_deps)) →
  main' args log
  = verdict' args program to_analyze constants control_deps log1.
Proof. intros H. unfold main, mbind, M_bind. by rewrite H. Qed.

(** C2. Without a [--secrets] argument the map the verdict is taken on
    is the whole control-dependency map, every entry unchanged: the run
    passes exactly when the analysis found no control dependency. *)
Theorem no_secrets_whole_map (args : Args) (log log1 : list event)
    (constants : gmap pystr Z) (program : Program) (to_analyze : pystr)
    (control_deps : gmap pystr PCs) :
  secrets args = None →
  analysis' args log
  = (log1, Ok (constants, program, to_analyze, control_deps)) →
  secret_control_deps PCs control_deps (secrets args) = control_deps
  ∧ (∀ node, secret_control_deps PCs control_deps (secrets args) !! node
             = control_deps !! node)
  ∧ (main' args log).2 = Ok (if decide (control_deps = ∅) then 0 else 1).
Proof.
  intros Hs H.
  destruct (verdict_spec args program to_analyze constants control_deps log1)
    as (printed & Hv & _).
  rewrite (main_after_analysis _ _ _ _ _ _ _ H), Hv, Hs. done.
Qed.

(** C3. With a list of secrets the verdict is taken on exactly the
    entries of the map whose label is in the list, each with its branch
    addresses unchanged; the other labels have no entry. *)
Theorem secrets_restrict_map (control_deps : gmap pystr PCs)
    (secrets : list pystr) (node : pystr) :
  (∀ pcs, secret_control_deps PCs control_deps (Some secrets) !! node
          = Some pcs
          ↔ control_deps !! node = Some pcs ∧ node ∈ secrets)
  ∧ (node ∉ secrets →
     secret_control_deps PCs control_deps (Some secrets) !! node = None).
Proof.
  unfold secret_control_deps. split.
  - intros pcs. by rewrite map_lookup_filter_Some.
  - intros Hnot. apply map_lookup_filter_None. right. intros pcs _. done.
Qed.

(** C4. For a fixed control-dependency map the filtered map grows with
    the list of secrets: an entry kept for [S] is kept for any [S'] that
    contains [S]. *)
Theorem secret_deps_monotone (control_deps : gmap pystr PCs)
    (S S' : list pystr) (node : pystr) (pcs : PCs) :
  S ⊆ S' →
  secret_control_deps PCs control_deps (Some S) !! node = Some pcs →
  secret_control_deps PCs control_deps (Some S') !! node = Some pcs.
Proof.
  unfold secret_control_deps. rewrite !map_lookup_filter_Some.
  intros Hsub [Hlook Hin]. split; [done|]. by apply Hsub.
Qed.

(** C5. Constants given without a subroutine are refused: [main] raises
    [ValueError] with the log as it found it, so before the ELF is
    decoded, before any graph is built or analysed, and with nothing
    printed. *)
Theorem constants_need_subroutine (args : Args) (cs : list pystr)
    (log : list event) :
  constants args = Some cs → subroutine args = None →
  main' args log = (log, Raise (ValueError ConstantsWithoutSubroutine)).
Proof.
  intros Hc Hs. unfold main, analysis, initial_constants.
  rewrite Hc, Hs. done.
Qed.

End MainFacts.

(** ** The report of a failing run *)

Lemma join_cons sep p ps :
  ps ≠ [] → join sep (p :: ps) = p ++ sep ++ join sep ps.
Proof. by destruct ps. Qed.

(** Each of the pieces joined is found in the result. *)
Lemma join_infix sep p parts :
  p ∈ parts → ∃ before after, join sep parts = before ++ p ++ after.
Proof.
  induction parts as [|p0 ps IH]; [by intros ?%elem_of_nil|].
  intros [->|Hin]%elem_of_cons.
  - destruct ps as [|p1 ps].
    + exists [], []. simpl. by rewrite app_nil_r.
    + exists [], (sep ++ join sep (p1 :: ps)). by rewrite join_cons.
  - destruct (IH Hin) as (before & after & Heq).
    assert (ps ≠ []) as Hne by (intros ->; by apply elem_of_nil in Hin).
    exists (p0 ++ sep ++ before), after.
    rewrite join_cons, Heq by done. by rewrite <- !app_assoc.
Qed.

Section ReportFacts.

Variable unicode_class : N → uclass.
Variables Program Graph IFlow PCs : Type.
Variable decode_elf : pystr → result Program.
Variable program_control_graph : Program → result Graph.
Variable subroutine_control_graph : Program → pystr → result Graph.
Variable get_program_iflow :
  Program → Graph → result (IFlow * gmap pystr PCs).
Variable get_subroutine_iflow :
  Program → Graph → pystr → gmap pystr Z →
  result (IFlow * IFlow * gmap pystr PCs).

(** How one entry is written: the label with its branch addresses. *)
Variable render : Program → pystr → PCs → pystr.

Local Abbreviation analysis' := (analysis unicode_class Program Graph IFlow PCs
  decode_elf program_control_graph subroutine_control_graph
  get_program_iflow get_subroutine_iflow).
Local Abbreviation main' := (main unicode_class Program Graph IFlow PCs
  decode_elf program_control_graph subroutine_control_graph
  get_program_iflow get_subroutine_iflow (stringify_entries render)).

(** C1. Once the analysis has produced the control-dependency map, the
    run fails exactly when the filtered map is not empty.  [main] then
    returns 1 and ends by printing the report, whose one error is the
    heading followed by one line for each entry of the filtered map and
    no other line: each offending secret with its branch addresses is
    written in the message.  When the filtered map is empty [main]
    reports no error and returns 0. *)
Theorem main_fails_iff_secret_deps (args : Args) (log log1 : list event)
    (constants : gmap pystr Z) (program : Program) (to_analyze : pystr)
    (control_deps : gmap pystr PCs) :
  analysis' args log
  = (log1, Ok (constants, program, to_analyze, control_deps)) →
  let deps := secret_control_deps PCs control_deps (secrets args) in
  ∃ printed,
    main' args log
    = (log1 ++ printed, Ok (if decide (deps = ∅) then 0 else 1))
    ∧ (deps ≠ ∅ →
       ∃ lines msg,
         msg = py "The following secrets may influence control flow:"
               ++ [10; 32; 32]%N ++ join [10; 32; 32]%N lines
         ∧ last printed
           = Some (Printed (Report {| errors := [msg]; warnings := [] |}))
         ∧ length lines = size deps
         ∧ (∀ node pcs, deps !! node = Some pcs →
              render program node pcs ∈ lines
              ∧ ∃ before after,
                  msg = before ++ render program node pcs ++ after)
         ∧ (∀ line, line ∈ lines →
              ∃ node pcs, deps !! node = Some pcs
                          ∧ line = render program node pcs))
    ∧ (deps = ∅ →
       ∀ out, Printed (Report out) ∈ printed →
              errors out = [] ∧ warnings out = []).
Proof.
  intros H deps.
  rewrite (main_after_analysis unicode_class Program Graph IFlow PCs
             decode_elf program_control_graph subroutine_control_graph
             get_program_iflow get_subroutine_iflow
             (stringify_entries render) args log log1 constants program
             to_analyze control_deps H).
  destruct (verdict_spec Program Graph IFlow PCs decode_elf
              program_control_graph subroutine_control_graph
              get_program_iflow get_subroutine_iflow
              (stringify_entries render) args program
              to_analyze constants control_deps log1)
    as (printed & Hv & Hfail & Hpass).
  fold deps in Hv, Hfail, Hpass. exists printed.
  split; [done|]. split; [|done]. intros Hne.
  assert (∀ node pcs, deps !! node = Some pcs →
            render program node pcs ∈ stringify_entries render program deps)
    as Hlines.
  { intros node pcs Hl. unfold stringify_entries.
    apply list_elem_of_fmap. exists (node, pcs).
    split; [done|]. by apply elem_of_map_to_list. }
  exists (stringify_entries render program deps). eexists.
  split; [reflexivity|]. split; [|split; [|split]].
  - rewrite (Hfail Hne). unfold error_message. done.
  - unfold stringify_entries. by rewrite length_fmap, length_map_to_list.
  - intros node pcs Hl. split; [by apply Hlines|].
    destruct (join_infix [10; 32; 32]%N (render program node pcs)
                (stringify_entries render program deps) (Hlines _ _ Hl))
      as (before & after & ->).
    exists (py "The following secrets may influence control flow:"
            ++ [10; 32; 32]%N ++ before), after.
    by rewrite <- !app_assoc.
  - intros line ([node pcs] & -> & Hl%elem_of_map_to_list)%list_elem_of_fmap.
    by exists node, pcs.
Qed.

End ReportFacts.

(** The theorems of the verdict, on the small instance. *)

(** A failing run with the rendering of the examples: the status, and
    the message of the report. *)
Example toy_report :
  run (toy_report_main (toy_args None None (Some [py "x9"; py "x5"])))
  = ([DecodeElf (py "prog.elf"); ProgramControlGraph; ProgramIFlow;
      Printed (Report
        {| errors :=
             [py "The following secrets may influence control flow:"
              ++ [10; 32; 32]%N ++ py "x5 (via 256)"];
           warnings := [] |})],
     Ok 1).
Proof. by vm_compute. Qed.

Lemma main_fails_iff_secret_deps_witness :
  (toy_report_main (toy_args None None (Some [py "x9"; py "x5"])) []).2 = Ok 1
  ∧ (∃ lines,
       length lines = 1%nat ∧ toy_render () (py "x5") [256] ∈ lines
       ∧ last (toy_report_main
                 (toy_args None None (Some [py "x9"; py "x5"])) []).1
         = Some (Printed (Report
             {| errors :=
                  [py "The following secrets may influence control flow:"
                   ++ [10; 32; 32]%N ++ join [10; 32; 32]%N lines];
                warnings := [] |})))
  ∧ (toy_report_main (toy_args None None (Some [py "x9"])) []).2 = Ok 0.
Proof.
  destruct (main_fails_iff_secret_deps latin1_class () () () (list Z)
              toy_decode_elf toy_program_control_graph
              toy_subroutine_control_graph toy_get_program_iflow
              toy_get_subroutine_iflow toy_render
              (toy_args None None (Some [py "x9"; py "x5"])) []
              [DecodeElf (py "prog.elf"); ProgramControlGraph; ProgramIFlow]
              ∅ () (py "entire program") toy_control_deps eq_refl)
    as (printed & Hmain & Hfail & _).
  destruct (main_fails_iff_secret_deps latin1_class () () () (list Z)
              toy_decode_elf toy_program_control_graph
              toy_subroutine_control_graph toy_get_program_iflow
              toy_get_subroutine_iflow toy_render
              (toy_args None None (Some [py "x9"])) []
              [DecodeElf (py "prog.elf"); ProgramControlGraph; ProgramIFlow]
              ∅ () (py "entire program") toy_control_deps eq_refl)
    as (printed' & Hmain' & _).
  destruct Hfail as (lines & msg & -> & Hlast & Hlen & Hall & _).
  { apply (bool_decide_unpack _). by vm_compute. }
  unfold toy_report_main. rewrite Hmain, Hmain'.
  split; [reflexivity|]. split; [|reflexivity].
  exists lines. split; [exact Hlen|]. split.
  - apply (Hall (py "x5") [256]). reflexivity.
  - cbn [fst]. rewrite last_app, Hlast. reflexivity.
Defined.


Lemma no_secrets_whole_map_witness :
  secret_control_deps (list Z) toy_control_deps None = toy_control_deps
  ∧ (toy_main (toy_args None None None) []).2 = Ok 1.
Proof.
  destruct (no_secrets_whole_map latin1_class () () () (list Z)
              toy_decode_elf toy_program_control_graph
              toy_subroutine_control_graph toy_get_program_iflow
              toy_get_subroutine_iflow toy_stringify
              (toy_args None None None) []
              [DecodeElf (py "prog.elf"); ProgramControlGraph; ProgramIFlow]
              ∅ () (py "entire program") toy_control_deps eq_refl eq_refl)
    as (Hmap & _ & Hmain).
  split; [exact Hmap | exact Hmain].
Defined.

Lemma secrets_restrict_map_witness :
  secret_control_deps (list Z) toy_control_deps (Some [py "x5"]) !! py "x7"
  = None.
Proof.
  apply (secrets_restrict_map (list Z) toy_control_deps [py "x5"] (py "x7")).
  apply (bool_decide_unpack _). by vm_compute.
Defined.

Lemma secret_deps_monotone_witness :
  secret_control_deps (list Z) toy_control_deps (Some [py "x5"; py "x7"])
    !! py "x5" = Some [256].
Proof.
  apply (secret_deps_monotone (list Z) toy_control_deps [py "x5"]).
  - intros x Hx. apply list_elem_of_In in Hx. apply list_elem_of_In.
    destruct Hx as [<-|[]]. left. reflexivity.
  - reflexivity.
Defined.

Lemma constants_need_subroutine_witness :
  toy_main (toy_args None (Some [py "x9:1"]) (Some [py "x5"])) []
  = ([], Raise (ValueError ConstantsWithoutSubroutine)).
Proof.
  apply (constants_need_subroutine latin1_class () () () (list Z)
           toy_decode_elf toy_program_control_graph
           toy_subroutine_control_graph toy_get_program_iflow
           toy_get_subroutine_iflow toy_stringify _ [py "x9:1"]);
    reflexivity.
Defined.

(** * Further properties of the driver *)

(** ** Tokens and colons *)

Lemma join_cons_head sep c w ws :
  join sep ((c :: w) :: ws) = c :: join sep (w :: ws).
Proof. by destruct ws. Qed.

Lemma split_not_nil sep s : split sep s ≠ [].
Proof.
  destruct s as [|c s]; [done|]. simpl.
  destruct (c =? sep)%N; [done|]. by destruct (split sep s).
Qed.

(** Joining the pieces with the separator gives the string back. *)
Lemma join_split sep s : join [sep] (split sep s) = s.
Proof.
  induction s as [|c s IH]; [done|]. simpl.
  destruct (N.eqb_spec c sep) as [->|Hne].
  - pose proof (split_not_nil sep s) as Hnil.
    destruct (split sep s) as [|w ws]; [done|].
    simpl in *. by rewrite IH.
  - pose proof (split_not_nil sep s) as Hnil.
    destruct (split sep s) as [|w ws]; [done|].
    by rewrite join_cons_head, IH.
Qed.

Lemma split_pieces sep s : Forall (λ piece, sep ∉ piece) (split sep s).
Proof.
  induction s as [|c s IH]; simpl.
  - repeat constructor. by intros ?%elem_of_nil.
  - destruct (N.eqb_spec c sep) as [->|Hne].
    + constructor; [by intros ?%elem_of_nil|done].
    + pose proof (split_not_nil sep s) as Hnil.
      destruct (split sep s) as [|w ws]; [done|].
      apply Forall_cons in IH as [Hw Hws]. constructor; [|done].
      intros [?|?]%elem_of_cons; done.
Qed.

Lemma split_length sep s :
  length (split sep s) = S (length (filter (λ c, c = sep) s)).
Proof.
  induction s as [|c s IH]; [done|]. simpl.
  destruct (N.eqb_spec c sep) as [->|Hne].
  - rewrite filter_cons_True by done. simpl. by rewrite IH.
  - rewrite filter_cons_False by done.
    destruct (split sep s) as [|w ws]; [done|]. done.
Qed.

(** A string splits in two exactly when it is two pieces without the
    separator around one separator. *)
Lemma split_two sep s a b :
  split sep s = [a; b] ↔ (s = a ++ sep :: b) ∧ (sep ∉ a) ∧ (sep ∉ b).
Proof.
  split.
  - intros H. pose proof (join_split sep s) as Hj.
    pose proof (split_pieces sep s) as Hp. rewrite H in Hj, Hp.
    apply Forall_cons in Hp as [Ha Hb]. apply Forall_cons in Hb as [Hb _].
    by rewrite <- Hj.
  - intros (-> & Ha & Hb). by apply split_pair.
Qed.

Section ParseExtras.

Variable U : N → uclass.

(** X1. The loop body accepts exactly the tokens [reg:value] made of a
    GPR name, one colon and a decimal string, of no more digits than
    [int] converts, for a number of at most [2^32 - 1], and then binds
    [reg] to that number. *)
Theorem accepted_token_shape token out m :
  parse_token U token out = Ok m
  ↔ ∃ reg value,
      token = reg ++ colon :: value ∧ is_gpr_name reg = true
      ∧ isdecimal U value = true ∧ within_digit_limit value = true
      ∧ decimal_value U value ≤ 2 ^ 32 - 1
      ∧ m = <[reg := decimal_value U value]> out.
Proof.
  split.
  - intros (reg & v & (value & Hs & Hg & Hd & -> & Hle & Hlim) & ->)
      %parse_token_ok.
    exists reg, value. apply split_two in Hs as (-> & _ & _). done.
  - intros (reg & value & -> & Hg & Hd & Hlim & Hle & ->).
    apply parse_token_names. exists value. repeat split; try done.
    apply split_pair; [by apply gpr_name_no_colon|].
    apply decimal_no_colon with U. by destruct value.
Qed.

(** X2. A token without a colon, or with more than one, gets the
    could-not-parse error, whatever its pieces are, and a list that
    contains it is refused. *)
Theorem colon_count_rejected constants token :
  token ∈ constants → colons token ≠ 1%nat →
  (∀ out, parse_token U token out = Raise (ValueError (CouldNotParse token)))
  ∧ is_value_error (parse_required_constants U constants).
Proof.
  intros Hin Hcount.
  assert (∀ out, parse_token U token out
                 = Raise (ValueError (CouldNotParse token))) as Hbad.
  { intros out. unfold parse_token. pose proof (split_length colon token) as Hl.
    unfold colons in Hcount.
    destruct (split colon token) as [|reg [|value [|]]]; try done.
    simpl in Hl. lia. }
  split; [done|]. apply parse_loop_rejects with token; [done|].
  intros out. rewrite Hbad. by eexists.
Qed.

(** X3. A value that passes [isnumeric] without being a decimal string
    (a superscript digit, a vulgar fraction) gets past the checks of the
    loop body and is refused by [int] itself: the [ValueError] is the one
    of the conversion, not one of the four messages of the tool. *)
Theorem numeric_not_decimal_invalid_literal token reg value out :
  split colon token = [reg; value] → is_gpr_name reg = true →
  isnumeric U value = true → isdecimal U value = false →
  parse_token U token out = Raise (ValueError (InvalidLiteral value)).
Proof.
  intros Hs Hg Hn Hd. unfold parse_token.
  by rewrite Hs, Hg, Hn, (py_int_not_decimal U value Hn Hd).
Qed.

(** X4. The loop stops at the first token it refuses: the error of
    [parse_required_constants] is the error of that token, whatever
    follows it. *)
Theorem first_error_wins l1 token l2 e :
  Forall (well_formed U) l1 →
  parse_token U token ∅ = Raise e →
  parse_required_constants U (l1 ++ token :: l2) = Raise e.
Proof.
  intros Hl1 Ht. unfold parse_required_constants. rewrite parse_loop_app.
  apply (parse_loop_ok_iff U l1 ∅) in Hl1 as [m1 ->].
  change (parse_loop U (token :: l2) m1 = Raise e).
  rewrite parse_loop_cons.
  apply parse_token_raise in Ht as (ve & -> & Hall). by rewrite Hall.
Qed.

End ParseExtras.

Lemma accepted_token_shape_witness :
  parse_token latin1_class (py "x7:12") ∅ = Ok (<[py "x7" := 12]> ∅).
Proof.
  apply (accepted_token_shape latin1_class).
  exists (py "x7"), (py "12"). repeat split; by vm_compute.
Defined.

Lemma colon_count_rejected_witness :
  is_value_error
    (parse_required_constants latin1_class [py "x1:1"; py "x5:1:2"]).
Proof.
  apply (colon_count_rejected latin1_class _ (py "x5:1:2")).
  - apply list_elem_of_In. right. left. reflexivity.
  - by vm_compute.
Defined.

Lemma numeric_not_decimal_invalid_literal_witness :
  parse_token latin1_class (py "x5:1" ++ [189%N]) ∅
  = Raise (ValueError (InvalidLiteral (py "1" ++ [189%N]))).
Proof.
  apply (numeric_not_decimal_invalid_literal latin1_class _ (py "x5"));
    reflexivity.
Defined.

Lemma first_error_wins_witness :
  parse_required_constants latin1_class [py "x1:1"; py "w2:2"; py "x3:zz"]
  = Raise (ValueError (NotValidGPR (py "w2:2") (py "w2"))).
Proof.
  apply (first_error_wins latin1_class [py "x1:1"] (py "w2:2") [py "x3:zz"]).
  - apply Forall_cons_2; [|apply Forall_nil_2].
    exists (py "x1"), 1, (py "1"). repeat split; by vm_compute.
  - reflexivity.
Defined.

(** ** The returned mapping *)

Lemma gpr_names_distinct : NoDup gpr_names ∧ length gpr_names = 32%nat.
Proof. split; [|done]. apply (bool_decide_unpack _). by vm_compute. Qed.

Section ParseResult.

Variable U : N → uclass.

Lemma parse_loop_entries (P : pystr → Z → Prop) l out m :
  (∀ token reg v, names U token reg v → P reg v) →
  map_Forall P out → parse_loop U l out = Ok m → map_Forall P m.
Proof.
  intros HP. revert out. induction l as [|t l IH]; intros out Hout.
  - by intros [= <-].
  - rewrite parse_loop_cons.
    destruct (parse_token U t out) as [m'|] eqn:Ht; [|done].
    apply parse_token_ok in Ht as (reg & v & Hn & ->).
    apply IH, map_Forall_insert_2; [by apply HP with t|done].
Qed.

Lemma parse_loop_size l out m :
  parse_loop U l out = Ok m → (size m ≤ size out + length l)%nat.
Proof.
  revert out. induction l as [|t l IH]; intros out.
  - intros [= <-]. simpl. lia.
  - rewrite parse_loop_cons.
    destruct (parse_token U t out) as [m'|] eqn:Ht; [|done].
    apply parse_token_ok in Ht as (reg & v & Hn & ->).
    intros Hm%IH. rewrite map_size_insert in Hm.
    destruct (out !! reg); simpl in *; lia.
Qed.

Lemma parse_loop_domain l out m reg :
  parse_loop U l out = Ok m →
  is_Some (m !! reg)
  ↔ is_Some (out !! reg) ∨ ∃ token v, token ∈ l ∧ names U token reg v.
Proof.
  revert out. induction l as [|t l IH]; intros out.
  - intros [= <-]. split; [by left|]. intros [?|(? & ? & []%elem_of_nil & _)].
    done.
  - rewrite parse_loop_cons.
    destruct (parse_token U t out) as [m'|] eqn:Ht; [|done].
    apply parse_token_ok in Ht as (reg' & v & Hn & ->).
    intros Hm. rewrite (IH _ Hm). split.
    + intros [Hin|(token & v' & Hin & Hn')].
      * destruct (decide (reg' = reg)) as [->|Hne].
        -- right. exists t, v. split; [by left|done].
        -- left. by rewrite lookup_insert_ne in Hin.
      * right. exists token, v'. split; [by right|done].
    + intros [Hin|(token & v' & [->|Hin]%elem_of_cons & Hn')].
      * left. destruct (decide (reg' = reg)) as [->|Hne].
        -- rewrite lookup_insert_eq. by eexists.
        -- by rewrite lookup_insert_ne.
      * left. destruct (names_functional U _ _ _ _ _ Hn Hn') as [-> _].
        rewrite lookup_insert_eq. by eexists.
      * right. by exists token, v'.
Qed.

(** X5. Whatever list is parsed, the mapping returned has only GPR names
    as keys and only values of [0 .. 2^32 - 1]; it has at most one entry
    per token and at most 32 entries. *)
Theorem parsed_constants_invariant constants m :
  parse_required_constants U constants = Ok m →
  (∀ reg v, m !! reg = Some v →
            is_gpr_name reg = true ∧ 0 ≤ v ≤ 2 ^ 32 - 1)
  ∧ (size m ≤ length constants)%nat
  ∧ (size m ≤ 32)%nat.
Proof.
  intros Hm.
  assert (∀ reg v, m !! reg = Some v →
                   is_gpr_name reg = true ∧ 0 ≤ v ≤ 2 ^ 32 - 1) as Hentries.
  { apply (parse_loop_entries
             (λ reg v, is_gpr_name reg = true ∧ 0 ≤ v ≤ 2 ^ 32 - 1)
             constants ∅ m); [|apply map_Forall_empty|done].
    intros token reg v (value & _ & Hg & _ & -> & Hle & _).
    pose proof (decimal_value_nonneg U value). done. }
  split; [done|]. split.
  - apply parse_loop_size in Hm. rewrite map_size_empty in Hm. lia.
  - destruct gpr_names_distinct as [Hnd Hlen].
    rewrite <- Hlen, <- (size_list_to_set (C := gset pystr)) by done.
    rewrite <- (size_dom (D := gset pystr)). apply subseteq_size.
    intros reg [v Hv]%elem_of_dom. apply elem_of_list_to_set.
    destruct (Hentries reg v Hv) as [Hg _]. by apply bool_decide_eq_true in Hg.
Qed.

(** X6. A register has an entry in the mapping returned exactly when
    some token of the list names it. *)
Theorem parsed_constants_domain constants m reg :
  parse_required_constants U constants = Ok m →
  is_Some (m !! reg)
  ↔ ∃ token v, token ∈ constants ∧ names U token reg v.
Proof.
  intros Hm. rewrite (parse_loop_domain constants ∅ m reg Hm).
  rewrite lookup_empty. split; [|by right].
  intros [[? [=]]|H]; done.
Qed.

End ParseResult.

Lemma parsed_constants_invariant_witness :
  ∃ m, parse_required_constants latin1_class
         [py "x5:1"; py "x7:2"; py "x5:3"] = Ok m
       ∧ (size m ≤ 3)%nat ∧ (size m ≤ 32)%nat.
Proof.
  eexists. split; [reflexivity|].
  apply (parsed_constants_invariant latin1_class
           [py "x5:1"; py "x7:2"; py "x5:3"]).
  reflexivity.
Defined.

Lemma parsed_constants_domain_witness :
  ∃ m, parse_required_constants latin1_class [py "x5:1"; py "x7:2"] = Ok m
       ∧ m !! py "x6" = None.
Proof.
  eexists. split; [reflexivity|].
  apply eq_None_not_Some.
  intros (token & v & Hin & value & Hs & _)%(parsed_constants_domain
    latin1_class [py "x5:1"; py "x7:2"]); [|reflexivity].
  apply list_elem_of_In in Hin.
  destruct Hin as [<-|[<-|[]]]; vm_compute in Hs; congruence.
Defined.

(** ** Lists of tokens *)

Section ParseLists.

Variable U : N → uclass.

(** Parsing onto a dictionary is parsing onto the empty one, laid over
    it. *)
Lemma parse_loop_union l out :
  parse_loop U l out
  = match parse_loop U l ∅ with
    | Ok m => Ok (m ∪ out)
    | Raise e => Raise e
    end.
Proof.
  revert out. induction l as [|t l IH]; intros out.
  - simpl. by rewrite (left_id_L ∅ (∪)).
  - rewrite !parse_loop_cons.
    destruct (parse_token_cases U t out) as [(reg & v & Hn & ->)|[e He]].
    + rewrite (parse_token_names U t reg v ∅ Hn). simpl.
      rewrite (IH (<[reg := v]> out)), (IH (<[reg := v]> ∅)).
      destruct (parse_loop U l ∅) as [m|]; [|done]. f_equal.
      rewrite (insert_union_singleton_l out), (insert_union_singleton_l ∅).
      by rewrite (right_id_L ∅ (∪)), (assoc_L (∪)).
    + by rewrite !He.
Qed.

(** X7. Parsing two lists one after the other is parsing each and laying
    the second mapping over the first: a register of both takes its value
    from the second list, and the first error met is the error raised. *)
Theorem parse_append l1 l2 :
  parse_required_constants U (l1 ++ l2)
  = match parse_required_constants U l1, parse_required_constants U l2 with
    | Ok m1, Ok m2 => Ok (m2 ∪ m1)
    | Ok _, Raise e => Raise e
    | Raise e, _ => Raise e
    end.
Proof.
  unfold parse_required_constants. rewrite parse_loop_app.
  destruct (parse_loop U l1 ∅) as [m1|]; [|done]. simpl.
  apply parse_loop_union.
Qed.

Lemma names_register_part token reg v :
  names U token reg v → register_part token = reg.
Proof. intros (value & Hs & _). unfold register_part. by rewrite Hs. Qed.

Lemma parse_loop_permutation l l' :
  l ≡ₚ l' → NoDup (register_part <$> l) →
  ∀ out m, parse_loop U l out = Ok m → parse_loop U l' out = Ok m.
Proof.
  induction 1 as [|t l l' Hp IH|t1 t2 l|l l' l'' Hp IH Hp' IH'];
    intros Hnd out m.
  - done.
  - rewrite !parse_loop_cons. apply NoDup_cons in Hnd as [_ Hnd].
    destruct (parse_token U t out); [by apply IH|done].
  - rewrite (parse_loop_cons U t2), (parse_loop_cons U t1).
    destruct (parse_token U t2 out) as [m2|] eqn:H2; [|done].
    apply parse_token_ok in H2 as (r2 & v2 & Hn2 & ->).
    change (parse_loop U (t1 :: l) (<[r2:=v2]> out) = Ok m →
            parse_token U t1 out ≫= parse_loop U (t2 :: l) = Ok m).
    rewrite parse_loop_cons.
    destruct (parse_token U t1 _) as [m1|] eqn:H1; [|done].
    apply parse_token_ok in H1 as (r1 & v1 & Hn1 & ->).
    rewrite (parse_token_names U t1 r1 v1 out Hn1).
    change (parse_loop U l (<[r1:=v1]> (<[r2:=v2]> out)) = Ok m →
            parse_loop U (t2 :: l) (<[r1:=v1]> out) = Ok m).
    rewrite parse_loop_cons, (parse_token_names U t2 r2 v2 _ Hn2).
    change (parse_loop U l (<[r1:=v1]> (<[r2:=v2]> out)) = Ok m →
            parse_loop U l (<[r2:=v2]> (<[r1:=v1]> out)) = Ok m).
    rewrite (insert_insert_ne out r1 r2); [done|].
    rewrite !fmap_cons in Hnd. apply NoDup_cons in Hnd as [Hnot _].
    rewrite (names_register_part _ _ _ Hn1) in Hnot.
    rewrite (names_register_part _ _ _ Hn2) in Hnot.
    intros ->. apply Hnot. by left.
  - intros Hm. apply IH'; [|by apply IH].
    by rewrite <- Hp.
Qed.

(** X8. When no two tokens have the same register part, the order of the
    tokens does not matter: a reordered list that parses gives the same
    mapping. *)
Theorem parse_order_irrelevant constants constants' m :
  constants ≡ₚ constants' →
  NoDup (register_part <$> constants) →
  parse_required_constants U constants = Ok m →
  parse_required_constants U constants' = Ok m.
Proof. intros Hp Hnd. by apply parse_loop_permutation. Qed.

Lemma decimal_value_zeros n value :
  decimal_value U (replicate n 48%N ++ value) = decimal_value U value.
Proof.
  induction n as [|n IH]; [done|].
  unfold decimal_value in *. simpl. exact IH.
Qed.

Lemma isdecimal_zeros n value :
  isdecimal U value = true → isdecimal U (replicate n 48%N ++ value) = true.
Proof.
  intros Hd. assert (forallb (is_decimal_char U) value = true) as Hall
    by (by destruct value).
  assert (forallb (is_decimal_char U) (replicate n 48%N ++ value) = true)
    as Hall'.
  { induction n as [|n IH]; [done|]. simpl. by rewrite IH. }
  destruct n; [done|]. done.
Qed.

(** X9. Zeros in front of the digits are accepted and change nothing as
    long as the digits, zeros included, are no more than [int] converts:
    with a GPR name and a decimal string for a number in range,
    [reg:0...0value] is then accepted with the binding of [reg:value].
    With more digits than that the token is refused, by [int]. *)
Theorem leading_zeros_ignored reg value n out :
  is_gpr_name reg = true → isdecimal U value = true →
  decimal_value U value ≤ 2 ^ 32 - 1 →
  let padded := replicate n 48%N ++ value in
  parse_token U (reg ++ colon :: padded) out
  = if within_digit_limit padded
    then Ok (<[reg := decimal_value U value]> out)
    else Raise (ValueError (InvalidLiteral padded)).
Proof.
  intros Hg Hd Hle padded.
  pose proof (isdecimal_zeros n value Hd) as Hd'. fold padded in Hd'.
  assert (split colon (reg ++ colon :: padded) = [reg; padded]) as Hs.
  { apply split_pair; [by apply gpr_name_no_colon|].
    apply decimal_no_colon with U. by destruct padded. }
  destruct (within_digit_limit padded) eqn:Hlim.
  - assert (decimal_value U padded = decimal_value U value) as Hv
      by apply decimal_value_zeros.
    apply parse_token_names. exists padded. by rewrite Hv.
  - unfold parse_token. rewrite Hs, Hg. simpl.
    rewrite (isdecimal_isnumeric U padded Hd'). simpl.
    by rewrite (py_int_decimal_limit U padded Hd'), Hlim.
Qed.

End ParseLists.

Lemma parse_order_irrelevant_witness :
  parse_required_constants latin1_class [py "x7:2"; py "x5:1"]
  = parse_required_constants latin1_class [py "x5:1"; py "x7:2"].
Proof.
  apply (parse_order_irrelevant latin1_class [py "x5:1"; py "x7:2"]).
  - apply perm_swap.
  - apply (bool_decide_unpack _). by vm_compute.
  - reflexivity.
Defined.

Lemma leading_zeros_ignored_witness :
  parse_token latin1_class (py "x5:000000000000000000007") ∅
  = Ok (<[py "x5" := 7]> ∅)
  ∧ parse_token latin1_class (py "x5:" ++ zeros_then_seven) ∅
    = Raise (ValueError (InvalidLiteral zeros_then_seven)).
Proof.
  split.
  - apply (leading_zeros_ignored latin1_class (py "x5") (py "7") 20 ∅);
      [reflexivity | reflexivity | by vm_compute].
  - apply (leading_zeros_ignored latin1_class (py "x5") (py "7") 4300 ∅);
      [reflexivity | reflexivity | by vm_compute].
Defined.

(** ** The run *)

Section MainExtras.

Variable unicode_class : N → uclass.
Variables Program Graph IFlow PCs : Type.
Variable decode_elf : pystr → result Program.
Variable program_control_graph : Program → result Graph.
Variable subroutine_control_graph : Program → pystr → result Graph.
Variable get_program_iflow :
  Program → Graph → result (IFlow * gmap pystr PCs).
Variable get_subroutine_iflow :
  Program → Graph → pystr → gmap pystr Z →
  result (IFlow * IFlow * gmap pystr PCs).
Variable stringify_control_deps :
  Program → gmap pystr PCs → list pystr.

Local Abbreviation analysis' := (analysis unicode_class Program Graph IFlow PCs
  decode_elf program_control_graph subroutine_control_graph
  get_program_iflow get_subroutine_iflow).
Local Abbreviation main' := (main unicode_class Program Graph IFlow PCs
  decode_elf program_control_graph subroutine_control_graph
  get_program_iflow get_subroutine_iflow stringify_control_deps).
Local Abbreviation verdict' := (verdict Program PCs stringify_control_deps).
Local Abbreviation check_result' :=
  (check_result Program PCs stringify_control_deps).
Local Abbreviation error_message' :=
  (error_message Program PCs stringify_control_deps).

(** The constants the run works with: none, or the parsed ones of a
    subroutine. *)
Local Abbreviation constants_from args c :=
  ((constants args = None ∧ c = ∅)
   ∨ ∃ cs sub, constants args = Some cs ∧ subroutine args = Some sub
               ∧ parse_required_constants unicode_class cs = Ok c).

(** What the stage before the verdict logs: calls only, in the order of
    the mode, all of them when it returns. *)
Lemma analysis_log (args : Args) (log : list event) :
  ∃ added,
    (analysis' args log).1 = log ++ added
    ∧ calls added = added
    ∧ match (analysis' args log).2 with
      | Ok (c, _, _, _) => constants_from args c ∧ added = calls_of_mode args c
      | Raise _ => ∃ c, added `prefix_of` calls_of_mode args c
      end.
Proof.
  unfold analysis, initial_constants, control_dependencies, calls_of_mode.
  destruct (constants args) as [cs|] eqn:Hc;
    destruct (subroutine args) as [sub|] eqn:Hs; run_M;
  repeat match goal with
  | |- context [parse_required_constants ?u ?c] =>
      destruct (parse_required_constants u c) eqn:?; run_M
  | |- context [decode_elf ?e] => destruct (decode_elf e) eqn:?; run_M
  | |- context [program_control_graph ?p] =>
      destruct (program_control_graph p) eqn:?; run_M
  | |- context [subroutine_control_graph ?p ?n] =>
      destruct (subroutine_control_graph p n) eqn:?; run_M
  | |- context [get_program_iflow ?p ?g] =>
      destruct (get_program_iflow p g) as [[? ?]|] eqn:?; run_M
  | |- context [get_subroutine_iflow ?p ?g ?n ?c] =>
      destruct (get_subroutine_iflow p g n c) as [[[? ?] ?]|] eqn:?; run_M
  end;
  rewrite <- ?app_assoc;
  (eexists; split; [reflexivity || (symmetry; apply app_nil_r)|]);
  (split; [reflexivity|]);
  first [ split; [(by left) || (right; by do 2 eexists)|reflexivity]
        | by (exists ∅; eexists)
        | by do 2 eexists ].
Qed.

(** The lines of the verdict stage and its status, in full. *)
Lemma verdict_run (args : Args) (program : Program) (to_analyze : pystr)
    (constants : gmap pystr Z) (control_deps : gmap pystr PCs)
    (log : list event) :
  let deps := secret_control_deps PCs control_deps (secrets args) in
  verdict' args program to_analyze constants control_deps log
  = (log
     ++ (if verbose args
         then [Printed match secrets args with
                       | None => SinglePathNotice to_analyze
                       | Some s => AnalyzingNotice to_analyze s constants
                       end]
         else [])
     ++ (if verbose args || negb (bool_decide (deps = ∅))
         then [Printed (Report (check_result' program deps))]
         else []),
     Ok (if decide (deps = ∅) then 0 else 1)).
Proof.
  intros deps. unfold verdict. fold deps.
  destruct (decide (deps = ∅)) as [He|Hne].
  - rewrite (bool_decide_eq_true_2 _ He).
    rewrite (check_result_empty Program PCs stringify_control_deps _ _ He).
    destruct (secrets args), (verbose args); run_M;
      by rewrite <- ?app_assoc, ?app_nil_r.
  - rewrite (bool_decide_eq_false_2 _ Hne).
    rewrite (check_result_nonempty Program PCs stringify_control_deps _ _ Hne).
    destruct (secrets args), (verbose args); run_M;
      by rewrite <- ?app_assoc, ?app_nil_r.
Qed.

Lemma main_unfold (args : Args) (log : list event) :
  main' args log
  = match analysis' args log with
    | (log1, Ok (constants, program, to_analyze, control_deps)) =>
        verdict' args program to_analyze constants control_deps log1
    | (log1, Raise e) => (log1, Raise e)
    end.
Proof.
  unfold main, mbind, M_bind.
  by destruct (analysis' args log) as [log1 [[[[c p] t] cd]|e]].
Qed.

Lemma calls_verdict_lines (b1 b2 : bool) (m1 m2 : message) :
  calls ((if b1 then [Printed m1] else [])
         ++ (if b2 then [Printed m2] else [])) = [].
Proof. by destruct b1, b2. Qed.

(** The stage before the verdict reads neither [--secrets] nor
    [--verbose]. *)
Lemma analysis_ignores_secrets_and_verbose (args : Args)
    (s : option (list pystr)) (b : bool) (log : list event) :
  analysis' (with_secrets s (with_verbose b args)) log = analysis' args log.
Proof. done. Qed.

(** X15. [--verbose] changes what is printed and nothing else: the
    result of [main] and its calls into the other modules are the same
    with and without it. *)
Theorem verbose_only_prints (args : Args) (b : bool) (log : list event) :
  (main' (with_verbose b args) log).2 = (main' args log).2
  ∧ calls (main' (with_verbose b args) log).1 = calls (main' args log).1.
Proof.
  rewrite !main_unfold.
  change (analysis' (with_verbose b args) log) with (analysis' args log).
  destruct (analysis' args log) as [log1 [[[[c p] t] cd]|e]]; [|done].
  rewrite !verdict_run. simpl. split; [done|].
  unfold calls. rewrite !filter_app.
  f_equal. by destruct b, (verbose args), (bool_decide _).
Qed.

(** X16. For parsed arguments: when [main] returns, it returns 0 or 1,
    and it returns 0 exactly when every stage before the verdict returned
    and the filtered map is empty. *)
Theorem main_returns_zero_iff_clean_pass (args : Args) (log : list event) :
  (∀ status, (main' args log).2 = Ok status → status = 0 ∨ status = 1)
  ∧ ((main' args log).2 = Ok 0
     ↔ ∃ log1 c program to_analyze control_deps,
         analysis' args log = (log1, Ok (c, program, to_analyze, control_deps))
         ∧ secret_control_deps PCs control_deps (secrets args) = ∅).
Proof.
  rewrite main_unfold.
  destruct (analysis' args log) as [log1 [[[[c p] t] cd]|e]].
  - rewrite verdict_run. cbn [snd].
    destruct (decide (secret_control_deps PCs cd (secrets args) = ∅))
      as [He|Hne].
    + split; [intros status [= <-]; by left|]. split; [|done].
      intros _. by exists log1, c, p, t, cd.
    + split; [intros status [= <-]; by right|]. split; [done|].
      intros (? & ? & ? & ? & ? & [=] & ?). by subst.
  - cbn [snd]. split; [done|]. split; [done|].
    intros (? & ? & ? & ? & ? & [=] & ?).
Qed.

(** X17. For parsed arguments: when a stage before the verdict raises
    (the constants, [decode_elf], the control graph or the information
    flow), [main] raises that exception; up to then it has printed
    nothing, and the calls made are the first ones of its mode, in order:
    decoding, then the control graph, then the information flow. *)
Theorem failing_stage_prints_nothing (args : Args) (log log' : list event)
    (e : exn) :
  analysis' args log = (log', Raise e) →
  main' args log = (log', Raise e)
  ∧ ∃ added c, log' = log ++ added ∧ calls added = added
               ∧ added `prefix_of` calls_of_mode args c.
Proof.
  intros Ha. rewrite main_unfold, Ha. split; [done|].
  destruct (analysis_log args log) as (added & H1 & H2 & H3).
  rewrite Ha in H1, H3. cbn [fst snd] in *.
  destruct H3 as [c H3]. by exists added, c.
Qed.

(** X18. A run that returns has made exactly the three calls of its
    mode, in order; in subroutine mode the analysis has received the
    parsed constants, and without [--constants] the empty mapping. *)
Theorem returning_run_calls (args : Args) (log log' : list event)
    (status : Z) :
  main' args log = (log', Ok status) →
  ∃ c, constants_from args c
       ∧ calls log' = calls log ++ calls_of_mode args c.
Proof.
  rewrite main_unfold. destruct (analysis_log args log) as (added & H1 & H2 & H3).
  destruct (analysis' args log) as [log1 [[[[c p] t] cd]|e1]]; simpl in *;
    [|done].
  rewrite verdict_run. intros [= <- _]. destruct H3 as [Hc ->].
  exists c. split; [done|]. subst log1. unfold calls in *.
  rewrite !filter_app, H2. fold (calls (calls_of_mode args c)).
  rewrite <- filter_app. fold calls.
  rewrite calls_verdict_lines. by rewrite app_nil_r.
Qed.

(** X19. Constants that do not parse stop the run before anything else
    happens: with [--constants] given and a token that is not well
    formed, [main] raises [ValueError] with the log as it found it, with
    or without [--subroutine]. *)
Theorem invalid_constants_stop_main (args : Args) (cs : list pystr)
    (log : list event) :
  constants args = Some cs → ¬ Forall (well_formed unicode_class) cs →
  ∃ ve, main' args log = (log, Raise (ValueError ve)).
Proof.
  intros Hc Hbad. unfold main, analysis, initial_constants. rewrite Hc.
  destruct (subroutine args) as [sub|]; [|by eexists].
  destruct (parse_required_constants unicode_class cs) as [m|e] eqn:Hp.
  - exfalso. apply Hbad. apply (parse_loop_ok_iff unicode_class cs ∅).
    by exists m.
  - apply parse_loop_raise in Hp as [ve ->]. by exists ve.
Qed.

Lemma filtered_empty_iff (control_deps : gmap pystr PCs) (S : list pystr) :
  secret_control_deps PCs control_deps (Some S) = ∅
  ↔ ∀ node, node ∈ S → control_deps !! node = None.
Proof.
  unfold secret_control_deps. rewrite map_empty. split.
  - intros H node Hin. specialize (H node).
    rewrite map_lookup_filter_None in H. destruct H as [H|H]; [done|].
    destruct (control_deps !! node) as [pcs|] eqn:Hl; [|done].
    by destruct (H pcs).
  - intros H node. apply map_lookup_filter_None.
    destruct (decide (node ∈ S)) as [Hin|Hnot]; [left; by apply H|].
    right. by intros pcs _.
Qed.

(** X10. With a list of secrets the run fails exactly when one of the
    named secrets is a label of the control-dependency map; secrets the
    analysis has no entry for are ignored, and a list of such secrets
    only passes. *)
Theorem secrets_fail_iff_label_named (args : Args) (S : list pystr)
    (log log1 : list event) (c : gmap pystr Z) (program : Program)
    (to_analyze : pystr) (control_deps : gmap pystr PCs) :
  secrets args = Some S →
  analysis' args log = (log1, Ok (c, program, to_analyze, control_deps)) →
  ((main' args log).2 = Ok 1
   ↔ ∃ node, node ∈ S ∧ is_Some (control_deps !! node))
  ∧ ((main' args log).2 = Ok 0
     ↔ ∀ node, node ∈ S → control_deps !! node = None).
Proof.
  intros Hs Ha. rewrite main_unfold, Ha, verdict_run, Hs. cbn [snd].
  destruct (filtered_empty_iff control_deps S) as [Hnone Hempty].
  destruct (decide (secret_control_deps PCs control_deps (Some S) = ∅))
    as [He|Hne].
  - split; split; try done.
    + intros (node & Hin & [pcs Hl]).
      by rewrite (Hnone He node Hin) in Hl.
    + intros _. by apply Hnone.
  - split; split; try done.
    + intros _. apply map_choose in Hne as (node & pcs & Hl).
      unfold secret_control_deps in Hl.
      apply map_lookup_filter_Some in Hl as [Hl Hin].
      exists node. split; [done|by eexists].
    + intros H. by apply Hempty in H.
Qed.

(** X11. Secrets only narrow the verdict: a run that passes with no
    [--secrets] passes with any, and a run that passes for a list of
    secrets passes for every list contained in it. *)
Theorem fewer_secrets_keep_pass (args : Args) (log : list event) :
  ((main' (with_secrets None args) log).2 = Ok 0 →
   ∀ s, (main' (with_secrets s args) log).2 = Ok 0)
  ∧ (∀ S S', S ⊆ S' →
       (main' (with_secrets (Some S') args) log).2 = Ok 0 →
       (main' (with_secrets (Some S) args) log).2 = Ok 0).
Proof.
  split.
  - intros H s. rewrite main_unfold in *.
    change (analysis' (with_secrets s args) log) with (analysis' args log).
    change (analysis' (with_secrets None args) log)
      with (analysis' args log) in H.
    destruct (analysis' args log) as [log1 [[[[c p] t] cd]|e]]; [|done].
    rewrite verdict_run in *. simpl in *.
    destruct (decide (cd = ∅)) as [->|]; [|done].
    destruct s as [S|]; simpl; [|by rewrite decide_True].
    by rewrite decide_True by apply map_filter_empty.
  - intros S S' Hsub H. rewrite main_unfold in *.
    change (analysis' (with_secrets (Some S) args) log)
      with (analysis' args log).
    change (analysis' (with_secrets (Some S') args) log)
      with (analysis' args log) in H.
    destruct (analysis' args log) as [log1 [[[[c p] t] cd]|e]]; [|done].
    rewrite verdict_run in *. cbn [snd secrets with_secrets] in *.
    destruct (decide (secret_control_deps PCs cd (Some S') = ∅))
      as [He|]; [|done].
    rewrite decide_True; [done|]. apply filtered_empty_iff.
    intros node Hin. apply (filtered_empty_iff cd S'); [done|by apply Hsub].
Qed.

(** X12. The list of secrets counts as a set: two lists with the same
    elements, in any order and with any repetitions, give the same
    filtered map. *)
Theorem secrets_as_set (control_deps : gmap pystr PCs) (S S' : list pystr) :
  (∀ node, node ∈ S ↔ node ∈ S') →
  secret_control_deps PCs control_deps (Some S)
  = secret_control_deps PCs control_deps (Some S').
Proof.
  intros H. unfold secret_control_deps. apply map_filter_ext.
  intros node pcs _. apply H.
Qed.

(** X13. Naming every label of the map as a secret is the same as naming
    none: the filtered map is then the whole map. *)
Theorem all_labels_named (control_deps : gmap pystr PCs) (S : list pystr) :
  (∀ node, is_Some (control_deps !! node) → node ∈ S) →
  secret_control_deps PCs control_deps (Some S)
  = secret_control_deps PCs control_deps None.
Proof.
  intros H. unfold secret_control_deps. apply map_filter_id.
  intros node pcs Hl. apply H. by eexists.
Qed.


End MainExtras.

(** The theorems of the run, on the small instance. *)

Lemma secrets_fail_iff_label_named_witness :
  (toy_main (toy_args None None (Some [py "x9"; py "x7"])) []).2 = Ok 1
  ∧ (toy_main (toy_args None None (Some [py "x9"; py "x8"])) []).2 = Ok 0.
Proof.
  split.
  - apply (secrets_fail_iff_label_named latin1_class () () () (list Z)
             toy_decode_elf toy_program_control_graph
             toy_subroutine_control_graph toy_get_program_iflow
             toy_get_subroutine_iflow toy_stringify
             (toy_args None None (Some [py "x9"; py "x7"]))
             [py "x9"; py "x7"] []
             [DecodeElf (py "prog.elf"); ProgramControlGraph; ProgramIFlow]
             ∅ () (py "entire program") toy_control_deps eq_refl eq_refl).
    exists (py "x7"). split; [|by eexists].
    apply list_elem_of_In. right. left. reflexivity.
  - apply (secrets_fail_iff_label_named latin1_class () () () (list Z)
             toy_decode_elf toy_program_control_graph
             toy_subroutine_control_graph toy_get_program_iflow
             toy_get_subroutine_iflow toy_stringify
             (toy_args None None (Some [py "x9"; py "x8"]))
             [py "x9"; py "x8"] []
             [DecodeElf (py "prog.elf"); ProgramControlGraph; ProgramIFlow]
             ∅ () (py "entire program") toy_control_deps eq_refl eq_refl).
    intros node Hin. apply list_elem_of_In in Hin.
    destruct Hin as [<-|[<-|[]]]; reflexivity.
Defined.

Lemma secrets_as_set_witness :
  secret_control_deps (list Z) toy_control_deps
    (Some [py "x7"; py "x5"; py "x7"])
  = secret_control_deps (list Z) toy_control_deps (Some [py "x5"; py "x7"]).
Proof.
  apply (secrets_as_set (list Z) toy_control_deps).
  intros node. rewrite !list_elem_of_In. simpl. tauto.
Defined.

Lemma all_labels_named_witness :
  secret_control_deps (list Z) toy_control_deps
    (Some [py "x5"; py "x6"; py "x7"])
  = toy_control_deps.
Proof.
  apply (all_labels_named (list Z) toy_control_deps
           [py "x5"; py "x6"; py "x7"]).
  intros node [pcs Hl]. unfold toy_control_deps in Hl.
  apply lookup_insert_Some in Hl as [[<- _]|[_ Hl]];
    [apply list_elem_of_In; left; reflexivity|].
  apply lookup_insert_Some in Hl as [[<- _]|[_ Hl]];
    [apply list_elem_of_In; right; right; left; reflexivity|].
  by rewrite lookup_empty in Hl.
Defined.


Lemma failing_stage_prints_nothing_witness :
  main latin1_class () () () (list Z)
    (λ _, Raise (OtherException (py "DecodeError")))
    toy_program_control_graph toy_subroutine_control_graph
    toy_get_program_iflow toy_get_subroutine_iflow toy_stringify
    {| elf := py "bad.elf"; verbose := true; subroutine := None;
       constants := None; secrets := None |} []
  = ([DecodeElf (py "bad.elf")], Raise (OtherException (py "DecodeError"))).
Proof.
  apply (failing_stage_prints_nothing latin1_class () () () (list Z)
           (λ _, Raise (OtherException (py "DecodeError")))
           toy_program_control_graph toy_subroutine_control_graph
           toy_get_program_iflow toy_get_subroutine_iflow toy_stringify
           {| elf := py "bad.elf"; verbose := true; subroutine := None;
              constants := None; secrets := None |}
           [] [DecodeElf (py "bad.elf")]
           (OtherException (py "DecodeError"))).
  reflexivity.
Defined.

Lemma returning_run_calls_witness :
  ∃ c, parse_required_constants latin1_class [py "x3:5"] = Ok c
       ∧ calls (toy_main (toy_args (Some (py "f")) (Some [py "x3:5"])
                            (Some [py "x5"])) []).1
         = [DecodeElf (py "prog.elf"); SubroutineControlGraph (py "f");
            SubroutineIFlow (py "f") c].
Proof.
  destruct (returning_run_calls latin1_class () () () (list Z)
              toy_decode_elf toy_program_control_graph
              toy_subroutine_control_graph toy_get_program_iflow
              toy_get_subroutine_iflow toy_stringify
              (toy_args (Some (py "f")) (Some [py "x3:5"]) (Some [py "x5"]))
              [] _ 1 eq_refl) as (c & [[[=] _]|(cs & sub & [= <-] & _ & Hp)] & Hc).
  exists c. split; [exact Hp | exact Hc].
Defined.

Lemma invalid_constants_stop_main_witness :
  ∃ ve, toy_main (toy_args (Some (py "f")) (Some [py "x3:0x5"]) None) []
        = ([], Raise (ValueError ve)).
Proof.
  apply (invalid_constants_stop_main latin1_class () () () (list Z)
           toy_decode_elf toy_program_control_graph
           toy_subroutine_control_graph toy_get_program_iflow
           toy_get_subroutine_iflow toy_stringify _ [py "x3:0x5"]).
  - reflexivity.
  - intros [(reg & v & value & Hs & _ & Hd & _) _]%Forall_cons.
    vm_compute in Hs. injection Hs as <- <-. vm_compute in Hd. discriminate Hd.
Defined.

(** ** Register names and errors *)

Lemma gpr_names_shape : Forall (λ name, gpr_shape name = true) gpr_names.
Proof. apply (bool_decide_unpack _). by vm_compute. Qed.

Lemma one_digit_gpr d :
  (48 ≤ d ≤ 57)%N → [120%N; d] ∈ gpr_names.
Proof.
  intros Hd.
  pose proof (forall_below
    (λ d, implb ((48 <=? d) && (d <=? 57))%N
                (bool_decide ([120%N; d] ∈ gpr_names))) 58 eq_refl d) as H.
  simpl in H.
  assert ((48 <=? d)%N = true) as H1 by (apply N.leb_le; lia).
  assert ((d <=? 57)%N = true) as H2 by (apply N.leb_le; lia).
  rewrite H1, H2 in H. eapply bool_decide_eq_true_1, H. lia.
Qed.

Lemma two_digit_gpr d1 d2 :
  (49 ≤ d1 ≤ 57)%N → (48 ≤ d2 ≤ 57)%N →
  (10 * (d1 - 48) + (d2 - 48) < 32)%N →
  [120%N; d1; d2] ∈ gpr_names.
Proof.
  intros Hd1 Hd2 Hlt.
  pose proof (forall_below
    (λ d1, forallb
       (λ d2, implb ((10 * (d1 - 48) + (d2 - 48) <? 32)
                     && (49 <=? d1) && (48 <=? d2))%N
                    (bool_decide ([120%N; d1; d2] ∈ gpr_names)))
       (N.of_nat <$> seq 0 58)) 58) as H.
  assert (d1 < N.of_nat 58)%N as Hb1 by lia.
  assert (d2 < N.of_nat 58)%N as Hb2 by lia.
  specialize (H ltac:(by vm_compute) d1 Hb1).
  apply (forall_below _ 58) with (c := d2) in H; [|done].
  assert ((10 * (d1 - 48) + (d2 - 48) <? 32)%N = true) as H0
    by (apply N.ltb_lt; lia).
  assert ((49 <=? d1)%N = true) as H1 by (apply N.leb_le; lia).
  assert ((48 <=? d2)%N = true) as H2 by (apply N.leb_le; lia).
  rewrite H0, H1, H2 in H. by eapply bool_decide_eq_true_1, H.
Qed.

(** X20. [is_gpr_name] accepts exactly an [x] followed by the decimal
    writing of a number below 32: lower case, one or two digits, no zero
    in front of a second digit. *)
Theorem is_gpr_name_shape name : is_gpr_name name = gpr_shape name.
Proof.
  destruct (gpr_shape name) eqn:Hshape.
  - apply bool_decide_eq_true.
    destruct name as [|x [|d1 [|d2 [|]]]]; try done; simpl in Hshape.
    + repeat (apply andb_prop in Hshape as [Hshape ?]).
      apply N.eqb_eq in Hshape as ->.
      apply one_digit_gpr. split; by apply N.leb_le.
    + repeat (apply andb_prop in Hshape as [Hshape ?]).
      apply N.eqb_eq in Hshape as ->.
      apply two_digit_gpr; [split; by apply N.leb_le..|by apply N.ltb_lt].
  - apply bool_decide_eq_false. intros Hin.
    pose proof gpr_names_shape as Hall. rewrite Forall_forall in Hall.
    by rewrite (Hall name Hin) in Hshape.
Qed.

Section ParseErrors.

Variable U : N → uclass.

Lemma parse_loop_raise_token constants out e :
  parse_loop U constants out = Raise e →
  ∃ token, token ∈ constants ∧ ¬ well_formed U token.
Proof.
  revert out. induction constants as [|t l IH]; intros out; [done|].
  rewrite parse_loop_cons.
  destruct (parse_token U t out) as [m|e'] eqn:Ht.
  - intros (token & Hin & Hbad)%IH. exists token. split; [by right|done].
  - intros _. exists t. split; [by left|].
    intros [m Hm]%(well_formed_accepted U t out). by rewrite Ht in Hm.
Qed.

(** X21. [parse_required_constants] raises nothing but [ValueError],
    and only for a list with a token that is not well formed. *)
Theorem parse_raises_only_value_error constants e :
  parse_required_constants U constants = Raise e →
  (∃ ve, e = ValueError ve)
  ∧ ∃ token, token ∈ constants ∧ ¬ well_formed U token.
Proof.
  intros He. split.
  - by apply parse_loop_raise in He.
  - by apply parse_loop_raise_token in He.
Qed.

End ParseErrors.

Lemma parse_raises_only_value_error_witness :
  ∃ token, token ∈ [py "x1:1"; py "x2:-2"]
           ∧ ¬ well_formed latin1_class token.
Proof.
  apply (parse_raises_only_value_error latin1_class [py "x1:1"; py "x2:-2"]
           (ValueError (NotNumeric (py "x2:-2") (py "-2")))).
  reflexivity.
Defined.

Lemma fewer_secrets_keep_pass_witness :
  (toy_main (toy_args None None (Some [py "x9"])) []).2 = Ok 0.
Proof.
  apply (proj2 (fewer_secrets_keep_pass latin1_class () () () (list Z)
                  toy_decode_elf toy_program_control_graph
                  toy_subroutine_control_graph toy_get_program_iflow
                  toy_get_subroutine_iflow toy_stringify
                  (toy_args None None None) [])
               [py "x9"] [py "x8"; py "x9"]).
  - intros node Hin. apply list_elem_of_In in Hin. apply list_elem_of_In.
    destruct Hin as [<-|[]]. right. left. reflexivity.
  - reflexivity.
Defined.
